(** * reptar: structural descriptors and acceptance criteria

    A shallow embedding of [reptar/descriptors.py]: the descriptor
    functions [get_center_of_mass], [max_atom_pair_dist] and
    [com_distance_sum], and the [Criteria] class with its [accept] method.

    NumPy arrays of floats are modelled as lists over an abstract scalar
    type carrying the arithmetic the code uses (class [Scalar]).  Two
    instances are given: the real numbers (exact arithmetic) and IEEE-754
    binary64 (the arithmetic of [numpy.float64]).  Python exceptions are
    modelled by the error monad [result]. *)

From Stdlib Require Import PrimFloat.
From Stdlib Require Import Reals Lra.
From stdpp Require Import gmap strings list fin_maps.

Set Default Proof Using "Type".

(** ** Exceptions and the error monad *)

Inductive exn : Type :=
  | IndexError          (* subscript out of range, too many indices *)
  | KeyError            (* missing dictionary key *)
  | ZeroDivisionError   (* numpy.average: weights sum to zero *)
  | TypeError           (* bad call: duplicate / unexpected keyword *)
  | ValueError          (* reduction over an empty axis *)
  | AxisError.          (* axis out of bounds for the array *)

Inductive result (A : Type) : Type :=
  | Ok (a : A)
  | Raise (e : exn).
Arguments Ok {A} a.
Arguments Raise {A} e.

Definition bind {A B} (r : result A) (k : A → result B) : result B :=
  match r with
  | Ok a => k a
  | Raise e => Raise e
  end.

Declare Scope result_scope.
Delimit Scope result_scope with result.
Notation "'let*' x ':=' r 'in' k" :=
  (bind r (fun x => k))
  (at level 10, x name, r at level 100, k at level 200,
   format "'[v' 'let*'  x  ':='  r  'in' '/' k ']'") : result_scope.
Local Open Scope result_scope.

(** [traverse f l] runs [f] on the elements of [l] from left to right and
    stops at the first exception, like a Python loop or comprehension. *)
Fixpoint traverse {A B} (f : A → result B) (l : list A) : result (list B) :=
  match l with
  | [] => Ok []
  | a :: l' =>
      let* b := f a in
      let* bs := traverse f l' in
      Ok (b :: bs)
  end.

(** [foldM f acc l]: a [for] loop over [l] threading the accumulator. *)
Fixpoint foldM {A B} (f : B → A → result B) (acc : B) (l : list A) : result B :=
  match l with
  | [] => Ok acc
  | a :: l' => let* acc' := f acc a in foldM f acc' l'
  end.

(** Subscripting a sequence with a non-negative index. *)
Definition index {A} (l : list A) (i : nat) : result A :=
  match l !! i with
  | Some a => Ok a
  | None => Raise IndexError
  end.

(** ** Scalars *)

Class Scalar (F : Type) : Type := {
  s_zero : F;
  s_add : F → F → F;
  s_sub : F → F → F;
  s_mul : F → F → F;
  s_div : F → F → F;
  s_sqrt : F → F;
  s_ltb : F → F → bool;     (* [<]  *)
  s_eqb : F → F → bool;     (* [==] *)
  s_max : F → F → F;        (* numpy.maximum *)
}.

Declare Scope scalar_scope.
Delimit Scope scalar_scope with S.
Infix "+" := s_add : scalar_scope.
Infix "-" := s_sub : scalar_scope.
Infix "*" := s_mul : scalar_scope.
Infix "/" := s_div : scalar_scope.

(** Exact arithmetic: the real numbers. *)
Definition Rltb (x y : R) : bool := if Rlt_dec x y then true else false.
Definition Reqb (x y : R) : bool := if Req_dec_T x y then true else false.

#[export] Instance R_scalar : Scalar R := {|
  s_zero := 0%R;
  s_add := Rplus;
  s_sub := Rminus;
  s_mul := Rmult;
  s_div := Rdiv;
  s_sqrt := R_sqrt.sqrt;
  s_ltb := Rltb;
  s_eqb := Reqb;
  s_max := Rmax;
|}.

(** Machine arithmetic: IEEE-754 binary64.  [numpy.maximum] propagates
    NaN. *)
Definition float_max (x y : float) : float :=
  if PrimFloat.is_nan x then x
  else if PrimFloat.is_nan y then y
  else if PrimFloat.ltb x y then y else x.

#[export] Instance float_scalar : Scalar float := {|
  s_zero := 0%float;
  s_add := PrimFloat.add;
  s_sub := PrimFloat.sub;
  s_mul := PrimFloat.mul;
  s_div := PrimFloat.div;
  s_sqrt := PrimFloat.sqrt;
  s_ltb := PrimFloat.ltb;
  s_eqb := PrimFloat.eqb;
  s_max := float_max;
|}.

(** ** Data model *)

(** One Cartesian position: a row of the last axis (length 3). *)
Record point (F : Type) : Type := Point { px : F; py : F; pz : F }.
Arguments Point {F} px py pz.
Arguments px {F} p.
Arguments py {F} p.
Arguments pz {F} p.

(** A frame has shape [(n_atoms, 3)]. *)
Abbreviation frame F := (list (point F)).

(** Coordinates: [R.ndim == 2] (one frame) or [R.ndim == 3] (a batch). *)
Inductive Coordinates (F : Type) : Type :=
  | Frame (f : frame F)
  | Batch (fs : list (frame F)).
Arguments Frame {F} f.
Arguments Batch {F} fs.

Definition ndim {F} (Rs : Coordinates F) : nat :=
  match Rs with Frame _ => 2 | Batch _ => 3 end.

(** [if R.ndim == 2: R = np.array([R])] (also [R[None, ...]]). *)
Definition promote {F} (Rs : Coordinates F) : list (frame F) :=
  match Rs with
  | Frame f => [f]
  | Batch fs => fs
  end.

(** All frames of a batch have [n] atoms (arrays are rectangular). *)
Definition rect {F} (n : nat) (fs : list (frame F)) : Prop :=
  Forall (λ f, length f = n) fs.

(** [itertools.combinations(range(n), 2)], in lexicographic order. *)
Definition combinations2 (n : nat) : list (nat * nat) :=
  flat_map (λ i, map (pair i) (seq (S i) (n - S i))) (seq 0 n).

(** [np.where(entity_ids == entity_id)[0]]: the positions holding
    [entity_id], ascending. *)
Fixpoint where_from (i : nat) (entity_ids : list Z) (entity_id : Z) : list nat :=
  match entity_ids with
  | [] => []
  | e :: rest =>
      if decide (e = entity_id)
      then i :: where_from (S i) rest entity_id
      else where_from (S i) rest entity_id
  end.
Definition np_where (entity_ids : list Z) (entity_id : Z) : list nat :=
  where_from 0 entity_ids entity_id.

(** [R[:, atom_idxs]]: the listed atoms of every frame. *)
Definition take_atoms {F} (fs : list (frame F)) (atom_idxs : list nat)
  : result (list (frame F)) :=
  traverse (λ f, traverse (index f) atom_idxs) fs.

(** The iteration order of [set(entity_ids)]: Python fixes none, only
    that every distinct identifier is visited once. *)
Record set_order : Type := SetOrder {
  iter :> list Z → list Z;
  iter_NoDup : ∀ l, NoDup (iter l);
  iter_elem_of : ∀ l x, x ∈ iter l ↔ x ∈ l;
}.

(** ** Descriptor functions *)

Section Descriptors.
Context {F : Type} `{!Scalar F}.

(** The mass table [reptar.utils.z_to_mass] (a module-level [dict] from
    atomic number to atomic mass) is a parameter of the development. *)
Variable z_to_mass : gmap Z F.

(** [add.reduce] along an axis. *)
Definition vsum (xs : list F) : F := foldl s_add s_zero xs.

Definition psub (p q : point F) : point F :=
  Point (px p - px q)%S (py p - py q)%S (pz p - pz q)%S.

(** [np.linalg.norm] along the last axis:
    [sqrt(add.reduce(x * x))]. *)
Definition norm (p : point F) : F :=
  s_sqrt (vsum [(px p * px p)%S; (py p * py p)%S; (pz p * pz p)%S]).

(** [np.amax] along an axis. *)
Definition amax (xs : list F) : result F :=
  match xs with
  | [] => Raise ValueError
  | x :: xs' => Ok (foldl s_max x xs')
  end.

(** The weighted mean of one coordinate column:
    [np.multiply(a, wgt).sum() / scl]. *)
Definition wmean (scl : F) (masses col : list F) : F :=
  (vsum (zip_with s_mul col masses) / scl)%S.

(** [np.average(R, axis=1, weights=R_masses)] where every frame carries
    the same weights [masses]. *)
Definition np_average (fs : list (frame F)) (masses : list F)
  : result (list (point F)) :=
  let scl := vsum masses in
  if s_eqb scl s_zero then Raise ZeroDivisionError
  else Ok (map (λ f, Point (wmean scl masses (px <$> f))
                           (wmean scl masses (py <$> f))
                           (wmean scl masses (pz <$> f))) fs).

(** [masses[i,:] = z_to_mass[Z[i]]] *)
Definition mass_of (zs : list Z) (i : nat) : result F :=
  let* z := index zs i in
  match z_to_mass !! z with
  | Some m => Ok m
  | None => Raise KeyError
  end.

(** [ms] are the masses the table gives for [zs], position by
    position. *)
Definition masses_of (zs : list Z) (ms : list F) : Prop :=
  Forall2 (λ z m, z_to_mass !! z = Some m) zs ms.

Definition get_center_of_mass (zs : list Z) (Rs : Coordinates F)
  : result (list (point F)) :=
  let fs := promote Rs in
  let* f0 := index fs 0 in
  let* masses := traverse (mass_of zs) (seq 0 (length f0)) in
  np_average fs masses.

(** [[R[i,j] for j in all_pairs[:,k]]] for one frame [R[i]]; [sel]
    picks column [k] of [all_pairs].  With no pair at all, [all_pairs]
    is a 1-D array and [all_pairs[:,k]] has too many indices. *)
Definition pair_points (all_pairs : list (nat * nat)) (sel : nat * nat → nat)
    (f : frame F) : result (list (point F)) :=
  match all_pairs with
  | [] => Raise IndexError
  | _ => traverse (λ p, index f (sel p)) all_pairs
  end.

Definition max_atom_pair_dist (zs : list Z) (Rs : Coordinates F)
  : result (list F) :=
  let fs := promote Rs in
  let all_pairs := combinations2 (length zs) in
  let* pair0_points := traverse (pair_points all_pairs fst) fs in
  let* pair1_points := traverse (pair_points all_pairs snd) fs in
  match fs with
  | [] => Raise AxisError            (* norm(..., axis=2) of a 1-D array *)
  | _ =>
      let distances :=
        zip_with (zip_with (λ p q, norm (psub p q))) pair0_points pair1_points in
      traverse amax distances
  end.

(** The body of the loop of [com_distance_sum] for one entity:
    [norm(cm_structures - cm_entity, axis=1)], one distance per frame.
    The entity's center of mass is computed by
    [get_center_of_mass(Z, R[:,atom_idxs])], with the full [Z]. *)
Definition entity_distances (zs : list Z) (fs : list (frame F))
    (entity_ids : list Z) (cm_structures : list (point F)) (entity_id : Z)
  : result (list F) :=
  let atom_idxs := np_where entity_ids entity_id in
  let* sub := take_atoms fs atom_idxs in
  let* cm_entity := get_center_of_mass zs (Batch sub) in
  Ok (zip_with (λ s e, norm (psub s e)) cm_structures cm_entity).

(** [com_distance_sum], visiting the entity identifiers in the given
    [order]. *)
Definition com_distance_sum_in (order : list Z)
    (zs : list Z) (Rs : Coordinates F) (entity_ids : list Z)
  : result (list F) :=
  let fs := promote Rs in
  let* cm_structures := get_center_of_mass zs (Batch fs) in
  foldM (λ d_sum entity_id,
           let* d := entity_distances zs fs entity_ids cm_structures entity_id in
           Ok (zip_with s_add d_sum d))
        (replicate (length fs) s_zero) order.

Definition com_distance_sum (so : set_order)
    (zs : list Z) (Rs : Coordinates F) (entity_ids : list Z)
  : result (list F) :=
  com_distance_sum_in (so entity_ids) zs Rs entity_ids.

End Descriptors.

(** ** Criteria *)

(** Values passed as keyword arguments. *)
Inductive pyval (F : Type) : Type :=
  | PyInts (l : list Z)
  | PyFloat (x : F).
Arguments PyInts {F} l.
Arguments PyFloat {F} x.

Abbreviation kwargs F := (gmap string (pyval F)).

(** What [accept] hands back for one of its two outputs: a scalar
    ([x[0]]) or the per-frame array. *)
Inductive squeezed (A : Type) : Type :=
  | Item (a : A)
  | PerFrame (l : list A).
Arguments Item {A} a.
Arguments PerFrame {A} l.

Definition is_scalar {A} (v : squeezed A) : bool :=
  match v with Item _ => true | PerFrame _ => false end.

(** [np.squeeze] on a 0-d or 1-d value: a length-one array becomes its
    element, anything else is left alone. *)
Definition squeeze {A} (v : squeezed A) : squeezed A :=
  match v with
  | PerFrame [a] => Item a
  | _ => v
  end.

Section Criteria.
Context {F : Type} `{!Scalar F}.

(** A descriptor is any callable [desc(Z, R, ** kwargs)]. *)
Definition descriptor : Type :=
  list Z → Coordinates F → kwargs F → result (list F).

Record Criteria : Type := mkCriteria {
  desc : descriptor;
  desc_kwargs : kwargs F;
  cutoff : F;
}.

(** The call [desc(Z, R, ** a, ** b)]: the two mappings are unpacked into one keyword
    dictionary; a key given twice is a [TypeError] raised by the call
    itself, before the body of [desc] runs. *)
Definition merge_kwargs (a b : kwargs F) : result (kwargs F) :=
  if decide (a ##ₘ b) then Ok (a ∪ b) else Raise TypeError.

(** Lines 72-76 of [accept]: the comparison with the cutoff and the
    squeeze when [n_R == 1]. *)
Definition decide_frames (cutoff : F) (n_R : nat) (desc_v : list F)
  : result (squeezed bool * squeezed F) :=
  let accept_r := map (λ v, s_ltb v cutoff) desc_v in
  if decide (n_R = 1) then
    let* a0 := index accept_r 0 in
    let* v0 := index desc_v 0 in
    Ok (Item a0, Item v0)
  else Ok (PerFrame accept_r, PerFrame desc_v).

Definition accept (c : Criteria) (zs : list Z) (Rs : Coordinates F)
    (kw : kwargs F) : result (squeezed bool * squeezed F) :=
  let fs := promote Rs in
  let n_R := length fs in
  let* all_kw := merge_kwargs (desc_kwargs c) kw in
  let* desc_v := desc c zs (Batch fs) all_kw in
  decide_frames (cutoff c) n_R desc_v.

(** Binding of keyword arguments to the parameters of the two scalar
    descriptors of the module: [max_atom_pair_dist(Z, R)] takes no
    keyword, [com_distance_sum(Z, R, entity_ids)] exactly one. *)
Definition desc_max_atom_pair_dist : descriptor :=
  λ zs Rs kw,
    if decide (kw = ∅) then max_atom_pair_dist zs Rs else Raise TypeError.

Definition desc_com_distance_sum (so : set_order) (z_to_mass : gmap Z F)
  : descriptor :=
  λ zs Rs kw,
    match kw !! "entity_ids" with
    | Some (PyInts entity_ids) =>
        if decide (dom kw = {["entity_ids"]})
        then com_distance_sum z_to_mass so zs Rs entity_ids
        else Raise TypeError
    | _ => Raise TypeError
    end.

End Criteria.
Arguments descriptor F : clear implicits.
Arguments Criteria F : clear implicits.

(** The value of one frame in an output of [accept]. *)
Definition frame_at {A} (v : squeezed A) (i : nat) : option A :=
  match v with
  | Item a => if decide (i = 0) then Some a else None
  | PerFrame l => l !! i
  end.

Definition squeeze_result {A B} (r : result (squeezed A * squeezed B))
  : result (squeezed A * squeezed B) :=
  match r with
  | Ok (a, v) => Ok (squeeze a, squeeze v)
  | Raise e => Raise e
  end.

(** Two runs have the same outcome: the same value, or an exception in
    both. *)
Definition agree {A} (r1 r2 : result A) : Prop :=
  match r1, r2 with
  | Ok a, Ok b => a = b
  | Raise _, Raise _ => True
  | _, _ => False
  end.

(** ** The descriptors as the specification words them *)

Section Specification.
Context {F : Type} `{!Scalar F}.

Definition pzero : point F := Point s_zero s_zero s_zero.
Definition padd (p q : point F) : point F :=
  Point (px p + px q)%S (py p + py q)%S (pz p + pz q)%S.
Definition pscale (m : F) (r : point F) : point F :=
  Point (m * px r)%S (m * py r)%S (m * pz r)%S.

(** [CM = Σ_i (mass_i · r_i) / Σ_i mass_i] *)
Definition center_of_mass_spec (masses : list F) (f : frame F) : point F :=
  let num := foldr padd pzero (zip_with pscale masses f) in
  let den := foldr s_add s_zero masses in
  Point (px num / den)%S (py num / den)%S (pz num / den)%S.

(** The part of a per-atom sequence that belongs to entity [e]. *)
Definition restrict {A} (entity_ids : list Z) (e : Z) (l : list A) : list A :=
  snd <$> filter (λ p, p.1 = e) (zip entity_ids l).

(** [L = Σ_entity ‖CM_entity − CM_structure‖₂] for one frame, each
    entity's center of mass taken over its own atoms and their masses. *)
Definition com_distance_sum_spec (entities : list Z) (masses : list F)
    (f : frame F) (entity_ids : list Z) : F :=
  foldr s_add s_zero
    (map (λ e, norm (psub (center_of_mass_spec (restrict entity_ids e masses)
                                               (restrict entity_ids e f))
                          (center_of_mass_spec masses f)))
         entities).

End Specification.

(** The sum of a list of reals. *)
Definition Rsum (l : list R) : R := foldr Rplus 0%R l.

(** ** Concrete parameters used in the examples *)

(** A set order: the enumeration of a [gset]. *)
Definition gset_iter (l : list Z) : list Z :=
  elements (C:=gset Z) (list_to_set l).

Definition gset_order : set_order :=
  SetOrder gset_iter
    (λ l, NoDup_elements (list_to_set l))
    (λ l x, iff_trans (elem_of_elements (list_to_set l) x)
                      (elem_of_list_to_set x l)).

(** Standard atomic weights of hydrogen and oxygen. *)
#[warnings="-inexact-float"]
Definition masses_float : gmap Z float :=
  {[ 1%Z := 1.008%float; 8%Z := 15.999%float ]}.
Definition masses_R : gmap Z R :=
  {[ 1%Z := 1.008%R; 8%Z := 15.999%R ]}.

(** Addition is commutative and associative, as in exact arithmetic
    (binary64 addition is commutative but not associative). *)
Definition exact_addition (F : Type) `{!Scalar F} : Prop :=
  (∀ x y : F, (x + y)%S = (y + x)%S) ∧
  (∀ x y z : F, (x + (y + z))%S = ((x + y) + z)%S).

(** Two hydrogen atoms one unit apart on the z axis. *)
Definition h2_float : frame float :=
  [Point 0 0 0; Point 0 0 1]%float.
Definition h2_R : frame R :=
  [Point 0 0 0; Point 0 0 1]%R.

(** A single atom at the origin. *)
Definition one_atom_float : frame float := [Point 0 0 0]%float.

(** A single hydrogen atom at [z = 1.99]. *)
#[warnings="-inexact-float"]
Definition one_atom_off_float : frame float := [Point 0 0 1.99]%float.

(** Three atoms on the z axis. *)
Definition three_atoms_float : frame float :=
  [Point 0 0 0; Point 0 0 1; Point 0 0 5]%float.

(** An oxygen at the origin and two hydrogens on the z axis; the oxygen
    is entity [0], the two hydrogens form entity [1]. *)
Definition oh2_R : frame R :=
  [Point 0 0 0; Point 0 0 1; Point 0 0 3]%R.
Definition oh2_float : frame float :=
  [Point 0 0 0; Point 0 0 1; Point 0 0 3]%float.
Definition oh2_Z : list Z := [8; 1; 1]%Z.
Definition oh2_masses_R : list R := [15.999; 1.008; 1.008]%R.
#[warnings="-inexact-float"]
Definition oh2_masses_float : list float := [15.999; 1.008; 1.008]%float.
Definition oh2_entities : list Z := [0; 1; 1]%Z.

(** Four hydrogen atoms, each its own entity: two far out on the x axis
    at [±2^52], two at distance one on the y axis.  The center of mass is
    the origin. *)
Definition cross_float : frame float :=
  [Point 0x1p52 0 0; Point (-0x1p52) 0 0; Point 0 1 0; Point 0 (-1) 0]%float.
Definition cross_Z : list Z := [1; 1; 1; 1]%Z.
Definition cross_entities : list Z := [0; 1; 2; 3]%Z.

(** The criteria "largest pair distance below [cutoff]". *)
Definition max_dist_below {F} `{!Scalar F} (cutoff : F) : Criteria F :=
  mkCriteria desc_max_atom_pair_dist ∅ cutoff.

(** A criteria on [com_distance_sum] whose fixed keyword arguments
    already bind [entity_ids]. *)
Definition entity_kw : kwargs float := {[ "entity_ids" := PyInts [0; 0]%Z ]}.
Definition com_sum_fixed : Criteria float :=
  mkCriteria (desc_com_distance_sum gset_order masses_float) entity_kw 1%float.

(** Two water molecules, each an entity, atoms listed molecule by
    molecule in the same order. *)
Definition dimer_Z : list Z := [8; 1; 1; 8; 1; 1]%Z.
Definition dimer_masses_R : list R :=
  [15.999; 1.008; 1.008; 15.999; 1.008; 1.008]%R.
Definition dimer_entities : list Z := [0; 0; 0; 1; 1; 1]%Z.
Definition dimer_R : frame R :=
  [Point 0 0 0; Point 0 1 0; Point 1 0 0;
   Point 0 0 3; Point 0 1 3; Point 1 0 3]%R.

(** ** writers/ase_db.py *)

Section WriteAseDb.
Context {F atoms : Type}.

(** [SinglePointCalculator(Atoms(Z, R[i]), energy=e, forces=f).get_atoms()]
    belongs to the ASE library: a parameter, which may raise.  A database
    is the list of the objects written to it, [db.write] adding one. *)
Variable single_point :
  list Z → frame F → option F → option (frame F) → result atoms.

(** [x[i] if x is not None else None] *)
Definition index_opt {A} (x : option (list A)) (i : nat) : result (option A) :=
  match x with
  | Some l => let* a := index l i in Ok (Some a)
  | None => Ok None
  end.

(** The body of the loop, up to [db.write]: the object written for
    frame [i]. *)
Definition ase_row_of (zs : list Z) (Rs : list (frame F))
    (energy : option (list F)) (forces : option (list (frame F))) (i : nat)
  : result atoms :=
  let* e := index_opt energy i in
  let* f := index_opt forces i in
  let* r := index Rs i in
  single_point zs r e f.

(** [for i in ...: ...; db.write(atom)]: the database after the loop and
    how the loop ended.  Rows written before an exception stay written. *)
Fixpoint write_rows (row_of : nat → result atoms) (idxs : list nat)
    (db : list atoms) : list atoms * result unit :=
  match idxs with
  | [] => (db, Ok tt)
  | i :: rest =>
      match row_of i with
      | Ok row => write_rows row_of rest (db ++ [row])
      | Raise e => (db, Raise e)
      end
  end.

(** [write_ase_db] on a database holding [db]. *)
Definition write_ase_db (db : list atoms) (zs : list Z) (Rs : list (frame F))
    (energy : option (list F)) (forces : option (list (frame F)))
  : list atoms * result unit :=
  write_rows (ase_row_of zs Rs energy forces) (seq 0 (length Rs)) db.

End WriteAseDb.

(** A stand-in for the ASE objects in the examples: the data they are
    built from. *)
Definition plain_atoms : Type :=
  list Z * frame float * option float * option (frame float).
Definition plain_single_point (zs : list Z) (r : frame float)
    (e : option float) (f : option (frame float)) : result plain_atoms :=
  Ok (zs, r, e, f).

(** ** parsers/crest_parser.py *)

(** [str.isspace] for the characters below 256. *)
Definition py_isspace (a : Ascii.ascii) : bool :=
  let n := Ascii.nat_of_ascii a in
  ((9 <=? n) && (n <=? 13)) || ((28 <=? n) && (n <=? 32)) ||
  (n =? 133) || (n =? 160).

(** [str.split()] without arguments: the maximal runs of characters that
    are not whitespace.  [cur] is the run being read. *)
Fixpoint split_from (cur : string) (s : string) : list string :=
  match s with
  | EmptyString => if decide (cur = EmptyString) then [] else [cur]
  | String a s' =>
      if py_isspace a
      then (if decide (cur = EmptyString) then split_from EmptyString s'
            else cur :: split_from EmptyString s')
      else split_from (cur +:+ String a EmptyString) s'
  end.
Definition py_split (s : string) : list string := split_from EmptyString s.

Section ParserCREST.
Context {F A : Type} `{Countable A}.

(** [float(s)], which raises [ValueError] on a string that is no
    number. *)
Variable py_float : string → option F.

(** Lines 95-98 of [parse]:
    [if len(set(tuple(i) for i in Z)) == 1: Z = Z[0]], else
    [ValueError]. *)
Definition consistent_atoms (Zs : list (list A)) : result (list A) :=
  if decide (size (list_to_set (C:=gset (list A)) Zs) = 1)
  then index Zs 0
  else Raise ValueError.

Definition to_float (s : string) : result F :=
  match py_float s with
  | Some x => Ok x
  | None => Raise ValueError
  end.

(** One turn of the rotamer loop: [e, weight, _ = line.split()], then
    [float(e)] and [float(weight)]. *)
Definition rotamer_line (line : string) : result (F * F) :=
  match py_split line with
  | [e; weight; _] =>
      let* e' := to_float e in
      let* w' := to_float weight in
      Ok (e', w')
  | _ => Raise ValueError
  end.

(** Lines 113-121 of [parse]: the energies and the ensemble weights of a
    rotamer file. *)
Definition rotamer_comments (comments : list string) : result (list F * list F) :=
  let* ews := traverse rotamer_line comments in
  Ok (map fst ews, map snd ews).

End ParserCREST.

(** A translation vector. *)
Definition shift_R : point R := Point 1%R 2%R 3%R.

(** ** Transformations of the input *)

(** Apply [g] to every position of the array. *)
Definition transform {F} (g : point F → point F) (Rs : Coordinates F)
  : Coordinates F :=
  match Rs with
  | Frame f => Frame (map g f)
  | Batch fs => Batch (map (map g) fs)
  end.

(** Map the value of a run, keep its exception. *)
Definition rmap {A B} (g : A → B) (r : result A) : result B :=
  match r with
  | Ok a => Ok (g a)
  | Raise e => Raise e
  end.

(** * Properties *)

(** ** The error monad *)

Lemma index_Ok {A} (l : list A) i a : l !! i = Some a → index l i = Ok a.
Proof. unfold index. by intros ->. Qed.

Lemma index_Raise {A} (l : list A) i : length l ≤ i → index l i = Raise IndexError.
Proof. intros Hi. unfold index. by rewrite lookup_ge_None_2. Qed.

Lemma traverse_ext {A B} (f g : A → result B) l :
  (∀ a, a ∈ l → f a = g a) → traverse f l = traverse g l.
Proof.
  induction l as [|a l IH]; intros Hfg; [done|].
  cbn. rewrite Hfg by left. rewrite IH; [done|].
  intros b Hb. apply Hfg. by right.
Qed.

Lemma traverse_Forall2 {A B} (f : A → result B) l bs :
  traverse f l = Ok bs ↔ Forall2 (λ a b, f a = Ok b) l bs.
Proof.
  revert bs. induction l as [|a l IH]; intros bs; cbn.
  - split; [by intros [= <-]|by intros ->%Forall2_nil_inv_l].
  - destruct (f a) as [b|e] eqn:Hfa; cbn.
    + destruct (traverse f l) as [bs'|e] eqn:Hl; cbn.
      * split.
        -- intros [= <-]. constructor; [done|]. by apply IH.
        -- intros (b' & bs'' & Hb & Hbs & ->)%Forall2_cons_inv_l.
           apply IH in Hbs. congruence.
      * split; [done|].
        intros (b' & bs'' & Hb & Hbs & ->)%Forall2_cons_inv_l.
        apply IH in Hbs. done.
    + split; [done|].
      intros (b' & bs'' & Hb & Hbs & ->)%Forall2_cons_inv_l. congruence.
Qed.

Lemma traverse_total {A B} (f : A → result B) l :
  (∀ a, a ∈ l → ∃ b, f a = Ok b) →
  ∃ bs, traverse f l = Ok bs.
Proof.
  induction l as [|a l IH]; intros Hf; [by eexists|].
  destruct (Hf a) as [b Hb]; [by left|].
  destruct IH as [bs Hbs]; [intros a' Ha'; apply Hf; by right|].
  exists (b :: bs). cbn. by rewrite Hb; cbn; rewrite Hbs.
Qed.

Lemma traverse_Raise_inv {A B} (f : A → result B) l e :
  traverse f l = Raise e → ∃ a, a ∈ l ∧ f a = Raise e.
Proof.
  induction l as [|a l IH]; [done|]. cbn.
  destruct (f a) as [b|e'] eqn:Hfa; cbn.
  - destruct (traverse f l) as [bs|e'] eqn:Hl; [done|]. cbn. intros [= ->].
    destruct IH as (a' & Ha' & Hfa'); [done|]. exists a'. split; [by right|done].
  - intros [= ->]. exists a. split; [by left|done].
Qed.

Lemma traverse_Raise_elem {A B} (f : A → result B) l a e :
  a ∈ l → f a = Raise e → ∃ e', traverse f l = Raise e'.
Proof.
  intros Ha Hfa. destruct (traverse f l) as [bs|e'] eqn:Hl; [|by eexists].
  apply traverse_Forall2 in Hl.
  apply list_elem_of_lookup in Ha as [i Hi].
  destruct (Forall2_lookup_l _ _ _ _ _ Hl Hi) as (b & _ & Hb). congruence.
Qed.

(** ** Criteria.accept *)

Section AcceptFacts.
Context {F : Type} `{!Scalar F}.
Implicit Types (c : Criteria F) (zs : list Z) (Rs : Coordinates F)
               (kw : kwargs F).

Lemma decide_frames_one cutoff v0 desc_v :
  decide_frames cutoff 1 (v0 :: desc_v) = Ok (Item (s_ltb v0 cutoff), Item v0).
Proof. done. Qed.

Lemma decide_frames_many cutoff n desc_v :
  n ≠ 1 →
  decide_frames cutoff n desc_v =
    Ok (PerFrame (map (λ v, s_ltb v cutoff) desc_v), PerFrame desc_v).
Proof. intros Hn. unfold decide_frames. by rewrite decide_False. Qed.

(** When the descriptor yields one value per frame, [accept] returns,
    and frame [i] of its outputs is the [i]-th descriptor value and its
    comparison with the cutoff. *)
Lemma accept_per_frame c zs Rs kw all_kw desc_v :
  merge_kwargs (desc_kwargs c) kw = Ok all_kw →
  desc c zs (Batch (promote Rs)) all_kw = Ok desc_v →
  length desc_v = length (promote Rs) →
  ∃ a v, accept c zs Rs kw = Ok (a, v) ∧
    (is_scalar a = true ∧ is_scalar v = true ↔ length (promote Rs) = 1) ∧
    ∀ i, frame_at v i = desc_v !! i ∧
         frame_at a i = (λ x, s_ltb x (cutoff c)) <$> desc_v !! i.
Proof.
  intros Hkw Hdesc Hlen. unfold accept. rewrite Hkw. cbn. rewrite Hdesc. cbn.
  destruct (decide (length (promote Rs) = 1)) as [H1|H1].
  - rewrite H1 in *. destruct desc_v as [|v0 [|]]; try done.
    rewrite decide_frames_one. eexists _, _. split; [done|]. split; [done|].
    intros [|i]; cbn; done.
  - rewrite decide_frames_many by done. eexists _, _. split; [done|].
    split; [cbn; split; [by intros []|done]|].
    intros i. cbn. by rewrite list_lookup_fmap.
Qed.

(** C5: for any atomic numbers [Z] and single frame [r], [accept(Z, r)]
    equals [accept(Z, [r])] on the one-frame batch, also after squeezing
    the latter's outputs to scalar form, for both the accepted boolean
    and the descriptor value. *)
Theorem accept_single_frame_parity c zs (r : frame F) kw :
  accept c zs (Frame r) kw = accept c zs (Batch [r]) kw ∧
  accept c zs (Frame r) kw = squeeze_result (accept c zs (Batch [r]) kw).
Proof.
  split; [done|].
  unfold accept. cbn.
  destruct (merge_kwargs _ _) as [all_kw|e]; [cbn|done].
  destruct (desc c zs (Batch [r]) all_kw) as [desc_v|e]; [cbn|done].
  destruct desc_v as [|v0 desc_v]; [done|].
  by rewrite decide_frames_one.
Qed.

(** C3 (amended): [accept] squeezes both outputs to scalar form exactly
    when the batch it evaluates holds one frame, that is for a 2-axis
    single frame and for a 3-axis batch of exactly one frame alike; for
    every other batch it returns both as per-frame arrays aligned 1:1
    with the input frame order. *)
Theorem accept_squeezes_iff_one_frame c zs Rs kw all_kw desc_v :
  merge_kwargs (desc_kwargs c) kw = Ok all_kw →
  desc c zs (Batch (promote Rs)) all_kw = Ok desc_v →
  length desc_v = length (promote Rs) →
  (length (promote Rs) = 1 →
     ∃ v0, desc_v = [v0] ∧
       accept c zs Rs kw = Ok (Item (s_ltb v0 (cutoff c)), Item v0)) ∧
  (length (promote Rs) ≠ 1 →
     accept c zs Rs kw =
       Ok (PerFrame (map (λ v, s_ltb v (cutoff c)) desc_v), PerFrame desc_v)) ∧
  (∀ r, Rs = Frame r ∨ Rs = Batch [r] → length (promote Rs) = 1).
Proof.
  intros Hkw Hdesc Hlen. unfold accept. rewrite Hkw. cbn. rewrite Hdesc. cbn.
  split; [|split].
  - intros H1. rewrite H1 in *. destruct desc_v as [|v0 [|]]; try done.
    by exists v0.
  - intros H1. by rewrite decide_frames_many.
  - by intros r [-> | ->].
Qed.

(** C9: when a call-time keyword argument shares its key with one of
    the criteria's fixed keyword arguments the call fails at once, whatever
    the descriptor is; when the key sets are disjoint the descriptor is
    invoked with the union of the two mappings. *)
Theorem accept_keyword_collision c zs Rs kw :
  (∀ k, is_Some (desc_kwargs c !! k) → is_Some (kw !! k) →
        accept c zs Rs kw = Raise TypeError) ∧
  (dom (desc_kwargs c) ## dom kw →
     accept c zs Rs kw =
       (let* desc_v := desc c zs (Batch (promote Rs)) (desc_kwargs c ∪ kw) in
        decide_frames (cutoff c) (length (promote Rs)) desc_v) ∧
     ∀ k x, (desc_kwargs c ∪ kw) !! k = Some x ↔
            desc_kwargs c !! k = Some x ∨ kw !! k = Some x).
Proof.
  split.
  - intros k [x Hx] [y Hy]. unfold accept, merge_kwargs.
    rewrite decide_False; [done|].
    intros Hdisj. rewrite map_disjoint_spec in Hdisj. by eapply Hdisj.
  - intros Hdom. apply map_disjoint_dom in Hdom. split.
    + unfold accept, merge_kwargs. by rewrite decide_True.
    + intros k x. by apply lookup_union_Some.
Qed.

End AcceptFacts.

(** ** max_atom_pair_dist *)

Lemma elem_of_combinations2 n i j :
  (i, j) ∈ combinations2 n ↔ i < j < n.
Proof.
  unfold combinations2. rewrite list_elem_of_In, in_flat_map.
  split.
  - intros (k & Hk & Hp). apply in_seq in Hk.
    rewrite <- list_elem_of_In in Hp.
    apply list_elem_of_fmap in Hp as (j' & [= -> ->] & Hj).
    apply elem_of_seq in Hj. lia.
  - intros Hij. exists i. split; [apply in_seq; lia|].
    rewrite <- list_elem_of_In. apply list_elem_of_fmap. exists j. split; [done|].
    apply elem_of_seq. lia.
Qed.

Lemma combinations2_nil n : n < 2 → combinations2 n = [].
Proof.
  intros Hn. destruct (combinations2 n) as [|[i j] l] eqn:Hc; [done|].
  assert ((i, j) ∈ combinations2 n) as Hin by (rewrite Hc; left).
  apply elem_of_combinations2 in Hin. lia.
Qed.

Lemma combinations2_cons n : 2 ≤ n → ∃ p l, combinations2 n = p :: l.
Proof.
  intros Hn. destruct (combinations2 n) as [|p l] eqn:Hc; [|by eauto].
  assert ((0, 1) ∈ combinations2 n) as Hin by (apply elem_of_combinations2; lia).
  rewrite Hc in Hin. by apply elem_of_nil in Hin.
Qed.

Lemma traverse_fmap {A B C} (f : B → result C) (g : A → B) l :
  traverse f (g <$> l) = traverse (f ∘ g) l.
Proof. induction l as [|a l IH]; [done|]. cbn. by rewrite IH. Qed.

Section MaxPairFacts.
Context {F : Type} `{!Scalar F}.
Implicit Types (zs : list Z) (f : frame F) (fs : list (frame F)).

Lemma pair_points_Raise pairs sel f e :
  pair_points pairs sel f = Raise e → e = IndexError.
Proof.
  unfold pair_points. destruct pairs as [|p pairs]; [congruence|].
  intros (q & _ & Hq)%traverse_Raise_inv.
  unfold index in Hq. destruct (f !! sel q); congruence.
Qed.

Lemma pair_points_take pairs sel f k :
  (∀ p, p ∈ pairs → sel p < k) →
  pair_points pairs sel (take k f) = pair_points pairs sel f.
Proof.
  intros Hsel. unfold pair_points. destruct pairs as [|p pairs]; [done|].
  apply traverse_ext. intros q Hq. unfold index.
  by rewrite lookup_take_lt by by apply Hsel.
Qed.

Lemma pair_points_Ok pairs sel f k :
  pairs ≠ [] → (∀ p, p ∈ pairs → sel p < k) → k ≤ length f →
  ∃ ps, pair_points pairs sel f = Ok ps ∧ length ps = length pairs.
Proof.
  intros Hne Hsel Hk. unfold pair_points. destruct pairs as [|p0 pairs]; [done|].
  destruct (traverse_total (λ p, index f (sel p)) (p0 :: pairs)) as [ps Hps].
  - intros q Hq. destruct (lookup_lt_is_Some_2 f (sel q)) as [a Ha].
    { specialize (Hsel q Hq). lia. }
    exists a. by apply index_Ok.
  - exists ps. split; [done|].
    apply traverse_Forall2 in Hps. symmetry. by eapply Forall2_length.
Qed.

Lemma combinations2_fst n p : p ∈ combinations2 n → p.1 < n.
Proof. destruct p as [i j]. intros ?%elem_of_combinations2. cbn. lia. Qed.

Lemma combinations2_snd n p : p ∈ combinations2 n → p.2 < n.
Proof. destruct p as [i j]. intros ?%elem_of_combinations2. cbn. lia. Qed.

(** With fewer than two atomic numbers there is no pair, and the
    function fails on every input. *)
Lemma max_atom_pair_dist_no_pair zs Rs :
  length zs < 2 →
  max_atom_pair_dist zs Rs =
    Raise (match promote Rs with [] => AxisError | _ => IndexError end).
Proof.
  intros Hzs. unfold max_atom_pair_dist.
  rewrite combinations2_nil by done.
  by destruct (promote Rs) as [|f0 fs].
Qed.

(** Only the first [len(Z)] atoms of each frame are ever read. *)
Lemma max_atom_pair_dist_take zs fs :
  max_atom_pair_dist zs (Batch (take (length zs) <$> fs)) =
  max_atom_pair_dist zs (Batch fs).
Proof.
  unfold max_atom_pair_dist. cbn [promote].
  rewrite !traverse_fmap.
  rewrite (traverse_ext (pair_points _ fst ∘ take (length zs))
                        (pair_points (combinations2 (length zs)) fst)).
  2:{ intros f _. apply pair_points_take, combinations2_fst. }
  rewrite (traverse_ext (pair_points _ snd ∘ take (length zs))
                        (pair_points (combinations2 (length zs)) snd)).
  2:{ intros f _. apply pair_points_take, combinations2_snd. }
  by destruct fs.
Qed.

(** With at least two atomic numbers, and frames holding at least that
    many atoms, the function returns one distance per frame. *)
Lemma max_atom_pair_dist_Ok zs fs :
  2 ≤ length zs → fs ≠ [] → Forall (λ f, length zs ≤ length f) fs →
  ∃ ds, max_atom_pair_dist zs (Batch fs) = Ok ds ∧ length ds = length fs.
Proof.
  intros Hzs Hfs Hlen. unfold max_atom_pair_dist. cbn [promote].
  destruct (combinations2_cons _ Hzs) as (p0 & pairs & Hpairs).
  set (all_pairs := combinations2 (length zs)) in *.
  assert (all_pairs ≠ []) as Hne by by rewrite Hpairs.
  rewrite Forall_forall in Hlen.
  destruct (traverse_total (pair_points all_pairs fst) fs) as [P0 HP0].
  { intros f Hf. destruct (pair_points_Ok all_pairs fst f (length zs))
      as (ps & Hps & _); eauto using combinations2_fst. }
  destruct (traverse_total (pair_points all_pairs snd) fs) as [P1 HP1].
  { intros f Hf. destruct (pair_points_Ok all_pairs snd f (length zs))
      as (ps & Hps & _); eauto using combinations2_snd. }
  rewrite HP0, HP1. cbn. destruct fs as [|f0 fs']; [done|].
  apply traverse_Forall2 in HP0, HP1.
  set (dist := zip_with (zip_with (λ p q, norm (psub p q))) P0 P1).
  destruct (traverse_total amax dist) as [ds Hds].
  - intros row Hrow. unfold dist in Hrow.
    apply list_elem_of_lookup in Hrow as [i Hi].
    apply lookup_zip_with_Some in Hi as (r0 & r1 & -> & Hr0 & Hr1).
    destruct (Forall2_lookup_r _ _ _ _ _ HP0 Hr0) as (f & Hf & Hfr0).
    destruct (Forall2_lookup_r _ _ _ _ _ HP1 Hr1) as (f' & Hf' & Hfr1).
    assert (f ∈ f0 :: fs') as Hin by by eapply list_elem_of_lookup_2.
    assert (f' ∈ f0 :: fs') as Hin' by by eapply list_elem_of_lookup_2.
    destruct (pair_points_Ok all_pairs fst f (length zs))
      as (ps & Hps & Hl0); eauto using combinations2_fst.
    destruct (pair_points_Ok all_pairs snd f' (length zs))
      as (ps' & Hps' & Hl1); eauto using combinations2_snd.
    assert (r0 = ps) as -> by congruence. assert (r1 = ps') as -> by congruence.
    rewrite Hpairs in Hl0, Hl1.
    destruct ps as [|a ps], ps' as [|b ps']; try done. by eexists.
  - exists ds. split; [done|].
    apply traverse_Forall2, Forall2_length in Hds. rewrite <- Hds.
    unfold dist. rewrite length_zip_with.
    apply Forall2_length in HP0, HP1. lia.
Qed.

(** More atomic numbers than atoms: some pair points outside the
    frame. *)
Lemma max_atom_pair_dist_long_Z zs f0 fs :
  length f0 < length zs →
  max_atom_pair_dist zs (Batch (f0 :: fs)) = Raise IndexError.
Proof.
  intros Hlen. destruct (decide (length zs < 2)) as [Hzs|Hzs].
  { by rewrite max_atom_pair_dist_no_pair. }
  unfold max_atom_pair_dist. cbn [promote].
  set (all_pairs := combinations2 (length zs)).
  destruct (traverse (pair_points all_pairs fst) (f0 :: fs)) as [P0|e] eqn:HP0.
  2:{ apply traverse_Raise_inv in HP0 as (f & _ & Hf).
      apply pair_points_Raise in Hf. by subst. }
  cbn [bind].
  assert (∃ e, pair_points all_pairs snd f0 = Raise e) as [e He].
  { unfold pair_points.
    destruct (combinations2_cons (length zs)) as (p0 & pairs & Hpairs); [lia|].
    fold all_pairs in Hpairs. rewrite Hpairs, <- Hpairs.
    apply (traverse_Raise_elem _ _ (0, length zs - 1) IndexError).
    - apply elem_of_combinations2. lia.
    - apply index_Raise. cbn. lia. }
  destruct (traverse_Raise_elem (pair_points all_pairs snd) (f0 :: fs) f0 e)
    as [e' He']; [by left|done|].
  rewrite He'. cbn.
  apply traverse_Raise_inv in He' as (f & _ & Hf).
  apply pair_points_Raise in Hf. by subst.
Qed.

(** C10: [max_atom_pair_dist] depends on the atomic numbers only
    through their count. *)
Theorem max_atom_pair_dist_only_length (zs1 zs2 : list Z) (Rs : Coordinates F) :
  length zs1 = length zs2 →
  max_atom_pair_dist zs1 Rs = max_atom_pair_dist zs2 Rs.
Proof. intros Hlen. unfold max_atom_pair_dist. by rewrite Hlen. Qed.

End MaxPairFacts.

(** ** get_center_of_mass *)

Section CenterOfMassFacts.
Context {F : Type} `{!Scalar F}.
Variable z_to_mass : gmap Z F.
Implicit Types (zs : list Z) (ms : list F) (fs : list (frame F)).

Lemma mass_of_Ok zs ms i m :
  masses_of z_to_mass zs ms → ms !! i = Some m → mass_of z_to_mass zs i = Ok m.
Proof.
  intros Hms Hi. destruct (Forall2_lookup_r _ _ _ _ _ Hms Hi) as (z & Hz & Hm).
  unfold mass_of. rewrite (index_Ok _ _ _ Hz). cbn. by rewrite Hm.
Qed.

(** The loop over [range(len(masses))] reads the first [n] atomic
    numbers, whatever follows them. *)
Lemma traverse_mass_of zs ms n :
  masses_of z_to_mass zs ms → n ≤ length zs →
  traverse (mass_of z_to_mass zs) (seq 0 n) = Ok (take n ms).
Proof.
  intros Hms Hn. apply traverse_Forall2.
  pose proof (Forall2_length _ _ _ Hms) as Hlen.
  apply Forall2_same_length_lookup_2.
  - rewrite length_seq, length_take. lia.
  - intros i j m Hj Hm. apply lookup_seq in Hj as [-> _].
    apply lookup_take_Some in Hm as [Hm _]. by eapply mass_of_Ok.
Qed.

Lemma traverse_mass_of_short zs ms n :
  masses_of z_to_mass zs ms → length zs < n →
  traverse (mass_of z_to_mass zs) (seq 0 n) = Raise IndexError.
Proof.
  intros Hms Hn.
  assert (mass_of z_to_mass zs (length zs) = Raise IndexError) as Hfail.
  { unfold mass_of. by rewrite index_Raise. }
  destruct (traverse_Raise_elem (mass_of z_to_mass zs) (seq 0 n) (length zs) IndexError)
    as [e He]; [apply elem_of_seq; lia|done|].
  rewrite He. f_equal.
  apply traverse_Raise_inv in He as (i & Hi & Hfi).
  unfold mass_of, index in Hfi. destruct (zs !! i) as [z|] eqn:Hz; cbn in Hfi.
  - destruct (Forall2_lookup_l _ _ _ _ _ Hms Hz) as (m & _ & Hm).
    rewrite Hm in Hfi. done.
  - congruence.
Qed.

Lemma get_center_of_mass_unfold zs ms Rs f0 fs :
  promote Rs = f0 :: fs → masses_of z_to_mass zs ms → length f0 ≤ length zs →
  get_center_of_mass z_to_mass zs Rs =
    np_average (promote Rs) (take (length f0) ms).
Proof.
  intros HRs Hms Hlen. unfold get_center_of_mass. rewrite HRs. cbn.
  by rewrite (traverse_mass_of zs ms).
Qed.

(** Atomic numbers beyond the atom axis are silently ignored. *)
Lemma get_center_of_mass_take zs ms Rs f0 fs :
  promote Rs = f0 :: fs → masses_of z_to_mass zs ms → length f0 ≤ length zs →
  get_center_of_mass z_to_mass zs Rs =
    get_center_of_mass z_to_mass (take (length f0) zs) Rs.
Proof.
  intros HRs Hms Hlen.
  rewrite (get_center_of_mass_unfold zs ms Rs f0 fs) by done.
  rewrite (get_center_of_mass_unfold (take (length f0) zs)
             (take (length f0) ms) Rs f0 fs); [|done| |].
  - by rewrite take_take, Nat.min_id.
  - by apply Forall2_take.
  - rewrite length_take. lia.
Qed.

(** Fewer atomic numbers than atoms: [Z[i]] runs out of range. *)
Lemma get_center_of_mass_short_Z zs ms Rs f0 fs :
  promote Rs = f0 :: fs → masses_of z_to_mass zs ms → length zs < length f0 →
  get_center_of_mass z_to_mass zs Rs = Raise IndexError.
Proof.
  intros HRs Hms Hlen. unfold get_center_of_mass. rewrite HRs. cbn.
  by rewrite (traverse_mass_of_short zs ms).
Qed.

Lemma get_center_of_mass_no_frame zs :
  get_center_of_mass z_to_mass zs (Batch []) = Raise IndexError.
Proof. done. Qed.

End CenterOfMassFacts.

(** ** Exact arithmetic *)

Section RealFacts.
Local Open Scope R_scope.
Implicit Types (ms : list R) (f : frame R) (fs : list (frame R)).

Lemma Rltb_true (x y : R) : s_ltb x y = true ↔ x < y.
Proof. cbn. unfold Rltb. by destruct (Rlt_dec x y). Qed.

Lemma Reqb_false (x y : R) : s_eqb x y = false ↔ x ≠ y.
Proof. cbn. unfold Reqb. by destruct (Req_dec_T x y). Qed.

Lemma foldl_Rplus a l : foldl Rplus a l = a + Rsum l.
Proof.
  revert a. induction l as [|x l IH]; intros a; cbn; [unfold Rsum; cbn; lra|].
  rewrite IH. unfold Rsum. cbn. lra.
Qed.

Lemma vsum_Rsum l : vsum l = Rsum l.
Proof. unfold vsum. cbn [s_add s_zero R_scalar]. rewrite foldl_Rplus. lra. Qed.

Lemma Rsum_weighted_px ms f :
  Rsum (zip_with Rmult (px <$> f) ms) = px (foldr padd pzero (zip_with pscale ms f)).
Proof.
  unfold Rsum.
  revert f. induction ms as [|m ms IH]; intros [|p f]; cbn; try done.
  rewrite IH. lra.
Qed.

Lemma Rsum_weighted_py ms f :
  Rsum (zip_with Rmult (py <$> f) ms) = py (foldr padd pzero (zip_with pscale ms f)).
Proof.
  unfold Rsum.
  revert f. induction ms as [|m ms IH]; intros [|p f]; cbn; try done.
  rewrite IH. lra.
Qed.

Lemma Rsum_weighted_pz ms f :
  Rsum (zip_with Rmult (pz <$> f) ms) = pz (foldr padd pzero (zip_with pscale ms f)).
Proof.
  unfold Rsum.
  revert f. induction ms as [|m ms IH]; intros [|p f]; cbn; try done.
  rewrite IH. lra.
Qed.

(** [np.average] computes the specification's weighted mean. *)
Lemma np_average_spec fs ms :
  Rsum ms ≠ 0 →
  np_average fs ms = Ok (map (center_of_mass_spec ms) fs).
Proof.
  intros Hne. unfold np_average.
  rewrite (proj2 (Reqb_false _ _)) by by rewrite vsum_Rsum.
  f_equal. apply map_ext. intros f.
  unfold center_of_mass_spec, wmean. cbn [s_add s_zero s_div s_mul R_scalar].
  rewrite !vsum_Rsum.
  by rewrite Rsum_weighted_px, Rsum_weighted_py, Rsum_weighted_pz.
Qed.

(** The Euclidean norm. *)
Lemma norm_R (p : point R) :
  norm p = sqrt (px p * px p + py p * py p + pz p * pz p).
Proof. unfold norm, vsum. cbn. f_equal. lra. Qed.

Lemma norm_z_axis (z : R) : norm (Point 0 0 z) = Rabs z.
Proof.
  rewrite norm_R. cbn. rewrite <- sqrt_Rsqr_abs. f_equal. unfold Rsqr. lra.
Qed.

End RealFacts.

Section CenterOfMassReal.
Local Open Scope R_scope.
Implicit Types (zs : list Z) (ms : list R) (fs : list (frame R)).

Lemma get_center_of_mass_spec (z_to_mass : gmap Z R) zs ms Rs :
  promote Rs ≠ [] → rect (length zs) (promote Rs) →
  masses_of z_to_mass zs ms → Rsum ms ≠ 0 →
  get_center_of_mass z_to_mass zs Rs =
    Ok (map (center_of_mass_spec ms) (promote Rs)).
Proof.
  intros Hne Hrect Hms Hsum.
  destruct (promote Rs) as [|f0 fs] eqn:HRs; [done|].
  assert (length f0 = length zs) as Hf0 by by inversion Hrect.
  rewrite (get_center_of_mass_unfold z_to_mass zs ms Rs f0 fs) by (done || lia).
  rewrite take_ge by (apply Forall2_length in Hms; lia).
  rewrite HRs. by apply np_average_spec.
Qed.

Lemma max_atom_pair_dist_h2_R :
  max_atom_pair_dist [1; 1]%Z (Frame h2_R) = Ok [1].
Proof.
  unfold max_atom_pair_dist, h2_R. cbn -[norm psub]. do 2 f_equal.
  unfold psub. cbn [px py pz s_sub R_scalar].
  replace (0 - 0) with 0 by lra. rewrite norm_z_axis.
  replace (0 - 1) with (- (1)) by lra. rewrite Rabs_Ropp. apply Rabs_R1.
Qed.

(** C7: for every batch of frames, [get_center_of_mass] returns, frame
    by frame, the mass-weighted average position
    [CM = Σ_i (mass_i · r_i) / Σ_i mass_i] with the masses the table gives
    for the atomic numbers, one 3-vector per frame; for [Z = [1, 1]] and
    [R = [[0,0,0],[0,0,1]]] this is [[0, 0, 0.5]], and
    [max_atom_pair_dist] is [1.0]. *)
Theorem get_center_of_mass_weighted_mean :
  (∀ (z_to_mass : gmap Z R) zs ms Rs,
     promote Rs ≠ [] → rect (length zs) (promote Rs) →
     masses_of z_to_mass zs ms → Rsum ms ≠ 0 →
     ∃ cm, get_center_of_mass z_to_mass zs Rs = Ok cm ∧
           length cm = length (promote Rs) ∧
           ∀ i f, promote Rs !! i = Some f →
                  cm !! i = Some (center_of_mass_spec ms f)) ∧
  get_center_of_mass masses_R [1; 1]%Z (Frame h2_R) = Ok [Point 0 0 0.5] ∧
  max_atom_pair_dist [1; 1]%Z (Frame h2_R) = Ok [1].
Proof.
  split; [|split].
  - intros z_to_mass zs ms Rs Hne Hrect Hms Hsum.
    exists (map (center_of_mass_spec ms) (promote Rs)).
    split; [by apply get_center_of_mass_spec|].
    split; [by rewrite length_map|].
    intros i f Hf. by rewrite list_lookup_fmap, Hf.
  - rewrite (get_center_of_mass_spec masses_R [1; 1]%Z [1.008; 1.008]).
    + unfold h2_R, center_of_mass_spec. cbn. do 2 f_equal. f_equal; lra.
    + done.
    + by repeat constructor.
    + by repeat constructor.
    + unfold Rsum. cbn. lra.
  - apply max_atom_pair_dist_h2_R.
Qed.

End CenterOfMassReal.

Section CutoffReal.
Local Open Scope R_scope.

(** C2: a frame is marked accepted if and only if its descriptor value is
    strictly less than the cutoff; a value equal to the cutoff is rejected,
    a value [c - ε] with [ε > 0] is accepted. *)
Theorem accept_strict_cutoff (c : Criteria R) zs Rs kw all_kw desc_v :
  merge_kwargs (desc_kwargs c) kw = Ok all_kw →
  desc c zs (Batch (promote Rs)) all_kw = Ok desc_v →
  length desc_v = length (promote Rs) →
  ∃ a v, accept c zs Rs kw = Ok (a, v) ∧
    ∀ i x, desc_v !! i = Some x →
      frame_at v i = Some x ∧
      ∃ b, frame_at a i = Some b ∧
        (b = true ↔ x < cutoff c) ∧
        (x = cutoff c → b = false) ∧
        (∀ ε, 0 < ε → x = cutoff c - ε → b = true).
Proof.
  intros Hkw Hdesc Hlen.
  destruct (accept_per_frame c zs Rs kw all_kw desc_v) as (a & v & Hacc & _ & Hi);
    [done..|].
  exists a, v. split; [done|]. intros i x Hx.
  destruct (Hi i) as [Hv Ha]. rewrite Hx in Hv, Ha. split; [done|].
  exists (s_ltb x (cutoff c)). split; [done|].
  split; [apply Rltb_true|]. split.
  - intros ->. apply not_true_is_false. rewrite Rltb_true. lra.
  - intros ε Hε ->. apply Rltb_true. lra.
Qed.

End CutoffReal.

Section OneAtomReal.
Local Open Scope R_scope.

Lemma center_of_mass_spec_one_atom (m : R) (p : point R) :
  m ≠ 0 → center_of_mass_spec [m] [p] = p.
Proof.
  intros Hm. destruct p as [x y z]. unfold center_of_mass_spec. cbn.
  f_equal; field; lra.
Qed.

(** C4 (amended): for a structure with exactly one atom,
    [get_center_of_mass] returns that atom's position for every frame (in
    exact arithmetic, the atom's mass being non-zero), while
    [max_atom_pair_dist] returns no value: there is no pair, and the call
    fails with an [IndexError]. *)
Theorem one_atom_structure (z_to_mass : gmap Z R) z m (ps : list (point R)) Rs :
  z_to_mass !! z = Some m → m ≠ 0 → ps ≠ [] →
  promote Rs = (λ p, [p]) <$> ps →
  get_center_of_mass z_to_mass [z] Rs = Ok ps ∧
  max_atom_pair_dist [z] Rs = Raise IndexError.
Proof.
  intros Hz Hm Hps HRs. split.
  - rewrite (get_center_of_mass_spec z_to_mass [z] [m]).
    + rewrite HRs. f_equal. rewrite <- list_fmap_compose.
      rewrite <- (list_fmap_id ps) at 2. apply list_fmap_ext.
      intros _ p _. by apply center_of_mass_spec_one_atom.
    + rewrite HRs. by destruct ps.
    + rewrite HRs. unfold rect. rewrite Forall_fmap. by apply Forall_true.
    + by repeat constructor.
    + unfold Rsum. cbn. lra.
  - rewrite max_atom_pair_dist_no_pair by (cbn; lia).
    rewrite HRs. by destruct ps.
Qed.

End OneAtomReal.

(** ** com_distance_sum: the order of the entities *)

Lemma agree_refl {A} (r : result A) : agree r r.
Proof. by destruct r. Qed.

Lemma agree_trans {A} (r1 r2 r3 : result A) :
  agree r1 r2 → agree r2 r3 → agree r1 r3.
Proof. destruct r1, r2, r3; cbn; try done. congruence. Qed.

Section EntityOrder.
Context {F : Type} `{!Scalar F}.
Implicit Types (d a b : list F) (g : Z → result (list F)).

(** Adding two per-frame arrays onto [d_sum] in either order. *)
Lemma zip_with_add_swap d a b :
  exact_addition F →
  zip_with s_add (zip_with s_add d a) b = zip_with s_add (zip_with s_add d b) a.
Proof.
  intros [Hcomm Hassoc]. revert a b.
  induction d as [|x d IH]; intros [|y a] [|z b]; cbn; try done.
  f_equal; [|apply IH].
  rewrite <- !Hassoc. f_equal. apply Hcomm.
Qed.

(** A loop that adds [g e] onto the accumulator for each [e] of the
    order ends the same way for every permutation of the order. *)
Lemma foldM_add_perm g o1 o2 :
  exact_addition F → o1 ≡ₚ o2 →
  ∀ d, agree (foldM (λ d_sum e, let* x := g e in Ok (zip_with s_add d_sum x)) d o1)
             (foldM (λ d_sum e, let* x := g e in Ok (zip_with s_add d_sum x)) d o2).
Proof.
  intros Hadd Hperm.
  induction Hperm as [|e o1 o2 _ IH|e1 e2 o|o1 o2 o3 _ IH1 _ IH2]; intros d.
  - apply agree_refl.
  - cbn. destruct (g e) as [x|err]; cbn; [apply IH|done].
  - cbn. destruct (g e1) as [x1|err1], (g e2) as [x2|err2]; cbn; try done.
    rewrite (zip_with_add_swap d x2 x1) by done. apply agree_refl.
  - eapply agree_trans; [apply IH1|apply IH2].
Qed.

(** C6 (amended): when scalar addition is commutative and associative
    (exact arithmetic), the outcome of [com_distance_sum] does not depend on
    the order in which the distinct entity identifiers are visited: any
    permutation of the order, and any iteration order of the set, gives
    exactly the same per-frame result. *)
Theorem com_distance_sum_order_exact (z_to_mass : gmap Z F) zs Rs entity_ids :
  exact_addition F →
  (∀ o1 o2, o1 ≡ₚ o2 →
     agree (com_distance_sum_in z_to_mass o1 zs Rs entity_ids)
           (com_distance_sum_in z_to_mass o2 zs Rs entity_ids)) ∧
  (∀ so1 so2 : set_order,
     agree (com_distance_sum z_to_mass so1 zs Rs entity_ids)
           (com_distance_sum z_to_mass so2 zs Rs entity_ids)).
Proof.
  intros Hadd.
  assert (∀ o1 o2, o1 ≡ₚ o2 →
     agree (com_distance_sum_in z_to_mass o1 zs Rs entity_ids)
           (com_distance_sum_in z_to_mass o2 zs Rs entity_ids)) as Hin.
  { intros o1 o2 Hperm. unfold com_distance_sum_in.
    destruct (get_center_of_mass z_to_mass zs (Batch (promote Rs)))
      as [cm|err]; cbn; [|done].
    by apply foldM_add_perm. }
  split; [done|].
  intros so1 so2. unfold com_distance_sum. apply Hin.
  apply NoDup_Permutation; [apply iter_NoDup..|].
  intros x. by rewrite !iter_elem_of.
Qed.

End EntityOrder.

(** ** Criteria.accept and the shapes of its arguments *)

Section ShapeFacts.
Context {F : Type} `{!Scalar F}.

Lemma accept_max_dist (cutoff : F) zs Rs :
  accept (max_dist_below cutoff) zs Rs ∅ =
    (let* desc_v := max_atom_pair_dist zs (Batch (promote Rs)) in
     decide_frames cutoff (length (promote Rs)) desc_v).
Proof.
  unfold accept, max_dist_below, merge_kwargs. cbn.
  rewrite decide_True by apply map_disjoint_empty_l. cbn.
  unfold desc_max_atom_pair_dist. rewrite (left_id_L ∅ (∪)).
  by rewrite decide_True.
Qed.

(** C8 (amended): [accept] checks no shape itself; the outcome of a call
    whose atomic numbers disagree in length with the atom axis is whatever
    the descriptor makes of it.  With [max_atom_pair_dist]: more atomic
    numbers than atoms fails with an [IndexError]; at least two but fewer
    atomic numbers than atoms returns the result computed over the first
    [len(Z)] atoms only.  With [get_center_of_mass] it is the other way
    round: fewer atomic numbers than atoms fails with an [IndexError], surplus
    atomic numbers are ignored.  The comparison with the cutoff never raises:
    once the descriptor has returned one value per frame, [accept]
    returns. *)
Theorem accept_checks_no_shape (cutoff : F) zs Rs n :
  promote Rs ≠ [] → rect n (promote Rs) →
  (n < length zs →
     accept (max_dist_below cutoff) zs Rs ∅ = Raise IndexError) ∧
  (2 ≤ length zs ≤ n →
     (∃ out, accept (max_dist_below cutoff) zs Rs ∅ = Ok out) ∧
     accept (max_dist_below cutoff) zs Rs ∅ =
       accept (max_dist_below cutoff) zs
              (Batch (take (length zs) <$> promote Rs)) ∅) ∧
  (∀ z_to_mass ms, masses_of z_to_mass zs ms →
     (length zs < n →
        get_center_of_mass z_to_mass zs Rs = Raise IndexError) ∧
     (n ≤ length zs →
        get_center_of_mass z_to_mass zs Rs =
          get_center_of_mass z_to_mass (take n zs) Rs)) ∧
  (∀ (c : Criteria F) kw all_kw desc_v,
     merge_kwargs (desc_kwargs c) kw = Ok all_kw →
     desc c zs (Batch (promote Rs)) all_kw = Ok desc_v →
     length desc_v = length (promote Rs) →
     ∃ out, accept c zs Rs kw = Ok out).
Proof.
  intros Hne Hrect.
  destruct (promote Rs) as [|f0 fs] eqn:HRs; [done|].
  assert (length f0 = n) as Hf0 by by inversion Hrect.
  split; [|split; [|split]].
  - intros Hn. rewrite accept_max_dist, HRs.
    rewrite max_atom_pair_dist_long_Z; [done|lia].
  - intros [Hzs Hn]. split.
    + destruct (max_atom_pair_dist_Ok zs (f0 :: fs)) as (ds & Hds & Hlen);
        [done..| |].
      { eapply Forall_impl; [exact Hrect|]. cbn. intros f ->. done. }
      rewrite accept_max_dist, HRs, Hds. cbn [bind].
      destruct (decide (length (f0 :: fs) = 1)) as [H1|H1].
      * rewrite H1 in *. destruct ds as [|d0 [|]]; try done.
        rewrite decide_frames_one. by eexists.
      * rewrite decide_frames_many by done. by eexists.
    + rewrite !accept_max_dist. cbn [promote]. rewrite HRs.
      by rewrite max_atom_pair_dist_take, length_fmap.
  - intros z_to_mass ms Hms. split.
    + intros Hn. apply (get_center_of_mass_short_Z z_to_mass zs ms Rs f0 fs);
        [done..|lia].
    + intros Hn. rewrite <- Hf0.
      apply (get_center_of_mass_take z_to_mass zs ms Rs f0 fs); [done..|lia].
  - intros c kw all_kw desc_v Hkw Hdesc Hlen.
    destruct (accept_per_frame c zs Rs kw all_kw desc_v) as (a & v & Hacc & _);
      [by rewrite ?HRs..|].
    by exists (a, v).
Qed.

End ShapeFacts.

(** ** com_distance_sum: the masses of an entity *)

Section EntityMassesReal.
Local Open Scope R_scope.

Lemma norm_on_z_axis (p : point R) :
  px p = 0 → py p = 0 → norm p = Rabs (pz p).
Proof.
  destruct p as [x y z]. cbn [px py pz]. intros -> ->. apply norm_z_axis.
Qed.

Lemma gset_iter_oh2 : gset_iter oh2_entities = [1; 0]%Z.
Proof. by vm_compute. Qed.

Lemma masses_of_oh2 : masses_of masses_R oh2_Z oh2_masses_R.
Proof. by repeat constructor. Qed.

(** The centers of mass [get_center_of_mass] returns on the way. *)
Lemma get_center_of_mass_oh2 :
  get_center_of_mass masses_R oh2_Z (Batch [oh2_R]) =
    Ok [Point 0 0 (4.032 / 18.015)].
Proof.
  rewrite (get_center_of_mass_spec masses_R oh2_Z oh2_masses_R);
    [|done|by repeat constructor|apply masses_of_oh2|unfold Rsum; cbn; lra].
  unfold center_of_mass_spec. cbn. do 2 f_equal. f_equal; lra.
Qed.

Lemma get_center_of_mass_oh2_oxygen :
  get_center_of_mass masses_R oh2_Z (Batch [[Point 0 0 0]]) =
    Ok [Point 0 0 0].
Proof.
  rewrite (get_center_of_mass_unfold masses_R oh2_Z oh2_masses_R _ [Point 0 0 0] []);
    [|done|apply masses_of_oh2|cbn; lia].
  cbn [promote length take oh2_masses_R].
  rewrite np_average_spec by (unfold Rsum; cbn; lra).
  unfold center_of_mass_spec. cbn. do 2 f_equal. f_equal; lra.
Qed.

(** The two hydrogens are weighted with the masses of the first two
    atoms of the structure, an oxygen and a hydrogen. *)
Lemma get_center_of_mass_oh2_hydrogens :
  get_center_of_mass masses_R oh2_Z (Batch [[Point 0 0 1; Point 0 0 3]]) =
    Ok [Point 0 0 (19.023 / 17.007)].
Proof.
  rewrite (get_center_of_mass_unfold masses_R oh2_Z oh2_masses_R _
             [Point 0 0 1; Point 0 0 3] []);
    [|done|apply masses_of_oh2|cbn; lia].
  cbn [promote length take oh2_masses_R].
  rewrite np_average_spec by (unfold Rsum; cbn; lra).
  unfold center_of_mass_spec. cbn. do 2 f_equal. f_equal; lra.
Qed.

(** C1: on an oxygen followed by two hydrogens that form an entity of
    their own, [com_distance_sum] returns [19.023 / 17.007], whereas the
    sum of the distances between each entity's own center of mass (its atoms
    with their masses) and the structure's center of mass is [2]. *)
Theorem com_distance_sum_entity_masses :
  com_distance_sum masses_R gset_order oh2_Z (Frame oh2_R) oh2_entities =
    Ok [19.023 / 17.007] ∧
  com_distance_sum_spec (gset_order oh2_entities) oh2_masses_R oh2_R oh2_entities = 2 ∧
  19.023 / 17.007 ≠ 2.
Proof.
  split; [|split].
  - unfold com_distance_sum. change (gset_order oh2_entities) with (gset_iter oh2_entities).
    rewrite gset_iter_oh2. unfold com_distance_sum_in. cbn [promote].
    rewrite get_center_of_mass_oh2. cbn [bind foldM length replicate].
    unfold entity_distances.
    change (np_where oh2_entities 1) with [1; 2]%nat.
    change (np_where oh2_entities 0) with [0]%nat.
    change (take_atoms [oh2_R] [1; 2]%nat) with (Ok [[Point 0 0 1; Point 0 0 3]]).
    change (take_atoms [oh2_R] [0]%nat) with (Ok [[Point 0 0 0]]).
    cbn [bind]. rewrite get_center_of_mass_oh2_hydrogens, get_center_of_mass_oh2_oxygen.
    cbn [bind zip_with]. do 2 f_equal.
    rewrite !norm_on_z_axis by (cbn; lra).
    cbn [psub pz px py s_sub s_add s_zero R_scalar].
    rewrite (Rabs_left (4.032 / 18.015 - 19.023 / 17.007)) by lra.
    rewrite (Rabs_right (4.032 / 18.015 - 0)) by lra.
    lra.
  - change (gset_order oh2_entities) with (gset_iter oh2_entities).
    rewrite gset_iter_oh2. unfold com_distance_sum_spec. cbn [map foldr].
    change (restrict oh2_entities 1 oh2_masses_R) with [1.008; 1.008].
    change (restrict oh2_entities 0 oh2_masses_R) with [15.999].
    change (restrict oh2_entities 1 oh2_R) with [Point 0 0 1; Point 0 0 3].
    change (restrict oh2_entities 0 oh2_R) with [Point 0 0 0].
    rewrite !norm_on_z_axis by (unfold center_of_mass_spec; cbn; lra).
    unfold center_of_mass_spec. cbn.
    rewrite (Rabs_right ((1.008 * 1 + (1.008 * 3 + 0)) / (1.008 + (1.008 + 0)) -
      (15.999 * 0 + (1.008 * 1 + (1.008 * 3 + 0))) / (15.999 + (1.008 + (1.008 + 0)))))
      by lra.
    rewrite (Rabs_left ((15.999 * 0 + 0) / (15.999 + 0) -
      (15.999 * 0 + (1.008 * 1 + (1.008 * 3 + 0))) / (15.999 + (1.008 + (1.008 + 0)))))
      by lra.
    lra.
  - lra.
Qed.

End EntityMassesReal.

(** ** Runs in binary64 arithmetic *)

Section Binary64.
Local Open Scope float_scope.

(** C3: a 3-axis batch holding exactly one frame comes back squeezed to
    scalars, not as per-frame arrays. *)
Lemma accept_one_frame_batch_squeezed :
  ndim (Batch [h2_float]) = 3%nat ∧
  accept (max_dist_below 2) [1; 1]%Z (Batch [h2_float]) ∅ = Ok (Item true, Item 1).
Proof. by vm_compute. Qed.

(** C4: on a structure of one atom [max_atom_pair_dist] raises instead of
    returning zero. *)
Lemma max_atom_pair_dist_one_atom_raises :
  max_atom_pair_dist [1]%Z (Frame one_atom_float) = Raise IndexError.
Proof. by vm_compute. Qed.

(** In binary64 the center of mass of one atom is [(r * m) / m], rounded
    twice: for [r = 1.99] and [m = 1.008] it is the next number after
    [1.99]. *)
#[warnings="-inexact-float"]
Lemma one_atom_center_of_mass_binary64 :
  get_center_of_mass masses_float [1]%Z (Frame one_atom_off_float) =
    Ok [Point 0 0 (1.99 * 1.008 / 1.008)] ∧
  (1.99 * 1.008 / 1.008 =? 1.99) = false ∧
  PrimFloat.next_up 1.99 = 1.99 * 1.008 / 1.008.
Proof. by vm_compute. Qed.

(** C6: in binary64 arithmetic the visiting order shows in the result.
    The four entities lie at distances [2^52], [2^52], [1] and [1] from
    the center of mass; summed in this order the two ones are rounded away,
    summed with the ones first they are not. *)
Lemma com_distance_sum_order_binary64 :
  [0; 1; 2; 3]%Z ≡ₚ [2; 3; 0; 1]%Z ∧
  com_distance_sum_in masses_float [0; 1; 2; 3]%Z cross_Z (Frame cross_float)
    cross_entities = Ok [9007199254740992] ∧
  com_distance_sum_in masses_float [2; 3; 0; 1]%Z cross_Z (Frame cross_float)
    cross_entities = Ok [9007199254740994] ∧
  ¬ agree
      (com_distance_sum_in masses_float [0; 1; 2; 3]%Z cross_Z (Frame cross_float)
         cross_entities)
      (com_distance_sum_in masses_float [2; 3; 0; 1]%Z cross_Z (Frame cross_float)
         cross_entities).
Proof.
  assert (com_distance_sum_in masses_float [0; 1; 2; 3]%Z cross_Z
            (Frame cross_float) cross_entities = Ok [9007199254740992]) as H1
    by by vm_compute.
  assert (com_distance_sum_in masses_float [2; 3; 0; 1]%Z cross_Z
            (Frame cross_float) cross_entities = Ok [9007199254740994]) as H2
    by by vm_compute.
  split; [apply (Permutation_app_comm [0; 1]%Z [2; 3]%Z)|].
  split; [done|]. split; [done|].
  rewrite H1, H2. cbn. discriminate.
Qed.

(** C8: two atomic numbers against three atoms: the call returns, with
    the distance of the first two atoms. *)
Lemma accept_truncated_atoms :
  length [1; 1]%Z ≠ length three_atoms_float ∧
  accept (max_dist_below 2) [1; 1]%Z (Frame three_atoms_float) ∅ =
    Ok (Item true, Item 1).
Proof. split; [by cbn|by vm_compute]. Qed.

(** The same structure in binary64: [com_distance_sum] returns about
    [1.1185], the specification's sum is [2]. *)
Lemma com_distance_sum_entity_masses_binary64 :
  com_distance_sum masses_float gset_order oh2_Z (Frame oh2_float) oh2_entities =
    Ok [0x1.1e5899896a58cp+0] ∧
  com_distance_sum_spec (gset_order oh2_entities) oh2_masses_float
    oh2_float oh2_entities = 2.
Proof. by vm_compute. Qed.

(** The two-hydrogen scenario in binary64, with the cutoff below, at and
    above the distance. *)
Lemma h2_scenario_binary64 :
  get_center_of_mass masses_float [1; 1]%Z (Frame h2_float) = Ok [Point 0 0 0.5] ∧
  max_atom_pair_dist [1; 1]%Z (Frame h2_float) = Ok [1] ∧
  accept (max_dist_below 0.5) [1; 1]%Z (Frame h2_float) ∅ = Ok (Item false, Item 1) ∧
  accept (max_dist_below 1) [1; 1]%Z (Frame h2_float) ∅ = Ok (Item false, Item 1) ∧
  accept (max_dist_below 2) [1; 1]%Z (Frame h2_float) ∅ = Ok (Item true, Item 1).
Proof. by vm_compute. Qed.

Lemma accept_squeezes_iff_one_frame_witness :
  accept (max_dist_below 2) [1; 1]%Z (Frame h2_float) ∅ = Ok (Item true, Item 1) ∧
  accept (max_dist_below 2) [1; 1]%Z (Batch [h2_float; h2_float]) ∅ =
    Ok (PerFrame [true; true], PerFrame [1; 1]).
Proof.
  split.
  - destruct (accept_squeezes_iff_one_frame (max_dist_below 2) [1; 1]%Z
                (Frame h2_float) ∅ ∅ [1]) as (H1 & _ & _);
      [by vm_compute..|].
    destruct (H1 eq_refl) as (v0 & [= <-] & Hacc). exact Hacc.
  - destruct (accept_squeezes_iff_one_frame (max_dist_below 2) [1; 1]%Z
                (Batch [h2_float; h2_float]) ∅ ∅ [1; 1]) as (_ & Hn & _);
      [by vm_compute..|].
    apply Hn. cbn. lia.
Defined.

Lemma accept_keyword_collision_witness :
  is_Some (desc_kwargs com_sum_fixed !! "entity_ids") ∧
  is_Some (entity_kw !! "entity_ids") ∧
  accept com_sum_fixed [1; 1]%Z (Frame h2_float) entity_kw = Raise TypeError ∧
  dom (desc_kwargs com_sum_fixed) ## dom (∅ : kwargs float) ∧
  accept com_sum_fixed [1; 1]%Z (Frame h2_float) ∅ = Ok (Item true, Item 0).
Proof.
  assert (is_Some (entity_kw !! "entity_ids")) as Hk by by eexists.
  assert (dom (desc_kwargs com_sum_fixed) ## dom (∅ : kwargs float)) as Hd
    by set_solver.
  split; [done|]. split; [done|]. split.
  - exact (proj1 (accept_keyword_collision com_sum_fixed [1; 1]%Z
                    (Frame h2_float) entity_kw) "entity_ids" Hk Hk).
  - split; [done|].
    destruct (proj2 (accept_keyword_collision com_sum_fixed [1; 1]%Z
                       (Frame h2_float) ∅) Hd) as [-> _].
    by vm_compute.
Defined.

Lemma max_atom_pair_dist_only_length_witness :
  length [1; 1]%Z = length [8; 6]%Z ∧
  max_atom_pair_dist [1; 1]%Z (Frame h2_float) =
    max_atom_pair_dist [8; 6]%Z (Frame h2_float).
Proof.
  split; [done|]. by apply max_atom_pair_dist_only_length.
Defined.

Lemma accept_checks_no_shape_witness :
  promote (Frame three_atoms_float) ≠ [] ∧
  rect 3 (promote (Frame three_atoms_float)) ∧
  accept (max_dist_below 2) [1; 1; 1; 1]%Z (Frame three_atoms_float) ∅ =
    Raise IndexError ∧
  accept (max_dist_below 2) [1; 1]%Z (Frame three_atoms_float) ∅ =
    accept (max_dist_below 2) [1; 1]%Z (Batch [take 2 three_atoms_float]) ∅.
Proof.
  assert (promote (Frame three_atoms_float) ≠ []) as Hne by done.
  assert (rect 3 (promote (Frame three_atoms_float))) as Hrect
    by by repeat constructor.
  split; [done|]. split; [done|]. split.
  - destruct (accept_checks_no_shape 2 [1; 1; 1; 1]%Z (Frame three_atoms_float)
                3%nat Hne Hrect) as (Hlong & _).
    apply Hlong. cbn. lia.
  - destruct (accept_checks_no_shape 2 [1; 1]%Z (Frame three_atoms_float)
                3%nat Hne Hrect) as (_ & Hshort & _).
    apply Hshort. cbn. lia.
Defined.

End Binary64.

(** ** Runs in exact arithmetic *)

Section ExactRuns.
Local Open Scope R_scope.

Lemma exact_addition_R : exact_addition R.
Proof. split; intros; cbn; lra. Qed.

Lemma accept_strict_cutoff_witness :
  merge_kwargs (desc_kwargs (max_dist_below 2)) ∅ = Ok ∅ ∧
  desc (max_dist_below 2) [1; 1]%Z (Batch (promote (Frame h2_R))) ∅ = Ok [1] ∧
  ∃ a v, accept (max_dist_below 2) [1; 1]%Z (Frame h2_R) ∅ = Ok (a, v) ∧
         frame_at v 0 = Some 1 ∧ frame_at a 0 = Some true.
Proof.
  assert (merge_kwargs (desc_kwargs (max_dist_below 2)) ∅ = Ok (∅ : kwargs R)) as Hkw
    by done.
  assert (desc (max_dist_below 2) [1; 1]%Z (Batch (promote (Frame h2_R))) ∅ = Ok [1])
    as Hdesc by apply max_atom_pair_dist_h2_R.
  split; [done|]. split; [done|].
  destruct (accept_strict_cutoff (max_dist_below 2) [1; 1]%Z (Frame h2_R) ∅ ∅ [1]
              Hkw Hdesc eq_refl) as (a & v & Hacc & Hi).
  exists a, v. split; [done|].
  destruct (Hi 0%nat 1 eq_refl) as (Hv & b & Hb & Hlt & _).
  split; [done|]. rewrite Hb. f_equal. apply Hlt. cbn. lra.
Defined.

Lemma one_atom_structure_witness :
  masses_R !! 1%Z = Some 1.008 ∧ 1.008 ≠ 0 ∧
  get_center_of_mass masses_R [1]%Z (Frame [Point 0 0 1]) = Ok [Point 0 0 1] ∧
  max_atom_pair_dist [1]%Z (Frame [Point 0 0 1]) = Raise IndexError.
Proof.
  assert (1.008 ≠ 0) as Hm by lra.
  split; [done|]. split; [done|].
  by apply (one_atom_structure masses_R 1%Z 1.008 [Point 0 0 1]
              (Frame [Point 0 0 1])).
Defined.

Lemma com_distance_sum_order_exact_witness :
  exact_addition R ∧ [0; 1]%Z ≡ₚ [1; 0]%Z ∧
  agree (com_distance_sum_in masses_R [0; 1]%Z oh2_Z (Frame oh2_R) oh2_entities)
        (com_distance_sum_in masses_R [1; 0]%Z oh2_Z (Frame oh2_R) oh2_entities).
Proof.
  assert ([0; 1]%Z ≡ₚ [1; 0]%Z) as Hperm by apply perm_swap.
  split; [apply exact_addition_R|]. split; [done|].
  by apply (com_distance_sum_order_exact masses_R oh2_Z (Frame oh2_R) oh2_entities
              exact_addition_R).
Defined.

Lemma get_center_of_mass_weighted_mean_witness :
  promote (Frame oh2_R) ≠ [] ∧ rect (length oh2_Z) (promote (Frame oh2_R)) ∧
  masses_of masses_R oh2_Z oh2_masses_R ∧ Rsum oh2_masses_R ≠ 0 ∧
  ∃ cm, get_center_of_mass masses_R oh2_Z (Frame oh2_R) = Ok cm ∧
        length cm = 1%nat ∧
        cm !! 0%nat = Some (center_of_mass_spec oh2_masses_R oh2_R).
Proof.
  assert (promote (Frame oh2_R) ≠ []) as Hne by done.
  assert (rect (length oh2_Z) (promote (Frame oh2_R))) as Hrect
    by by repeat constructor.
  assert (Rsum oh2_masses_R ≠ 0) as Hsum by (unfold Rsum; cbn; lra).
  split; [done|]. split; [done|]. split; [apply masses_of_oh2|]. split; [done|].
  destruct (proj1 get_center_of_mass_weighted_mean masses_R oh2_Z oh2_masses_R
              (Frame oh2_R) Hne Hrect masses_of_oh2 Hsum) as (cm & Hcm & Hlen & Hi).
  exists cm. split; [done|]. split; [done|]. by apply Hi.
Defined.

End ExactRuns.

(** * Further properties of the descriptors *)

(** ** Transformed coordinates *)

Lemma promote_transform {F} (g : point F → point F) (Rs : Coordinates F) :
  promote (transform g Rs) = map (map g) (promote Rs).
Proof. by destruct Rs. Qed.

Lemma rmap_id {A} (g : A → A) (r : result A) :
  (∀ a, g a = a) → rmap g r = r.
Proof. intros Hg. destruct r as [a|e]; cbn; [by rewrite Hg|done]. Qed.

Lemma index_map {A B} (g : A → B) (l : list A) i :
  index (map g l) i = rmap g (index l i).
Proof. unfold index. rewrite list_lookup_fmap. by destruct (l !! i). Qed.

(** A traversal whose steps are those of another one, mapped. *)
Lemma traverse_rmap {A B C} (f : A → result C) (f' : A → result B) (h : B → C) l :
  (∀ a, a ∈ l → f a = rmap h (f' a)) →
  traverse f l = rmap (map h) (traverse f' l).
Proof.
  induction l as [|a l IH]; intros Hf; [done|].
  cbn. rewrite Hf by left. rewrite IH by (intros b Hb; apply Hf; by right).
  destruct (f' a) as [b|e]; cbn; [|done].
  by destruct (traverse f' l).
Qed.

Section Similarity.
Context {F : Type} `{!Scalar F}.

Lemma pair_points_map (g : point F → point F) pairs sel (f : frame F) :
  pair_points pairs sel (map g f) = rmap (map g) (pair_points pairs sel f).
Proof.
  unfold pair_points. destruct pairs as [|p pairs]; [done|].
  apply traverse_rmap. intros q _. apply index_map.
Qed.

End Similarity.

Section SimilarityReal.
Local Open Scope R_scope.
Implicit Types (p q t : point R) (zs : list Z) (Rs : Coordinates R).

Lemma amax_scale (c : R) (row : list R) :
  0 <= c → amax (map (Rmult c) row) = rmap (Rmult c) (amax row).
Proof.
  intros Hc. destruct row as [|x row]; [done|]. cbn. f_equal.
  revert x. induction row as [|y row IH]; intros x; [done|].
  cbn. rewrite RmaxRmult by done. apply IH.
Qed.

(** A map [g] of space that multiplies every distance by [c] multiplies
    the largest pair distance by [c]. *)
Lemma max_atom_pair_dist_similarity (g : point R → point R) (c : R) zs Rs :
  0 <= c →
  (∀ p q, norm (psub (g p) (g q)) = c * norm (psub p q)) →
  max_atom_pair_dist zs (transform g Rs) =
    rmap (map (Rmult c)) (max_atom_pair_dist zs Rs).
Proof.
  intros Hc Hg. unfold max_atom_pair_dist. rewrite promote_transform.
  set (pairs := combinations2 (length zs)).
  rewrite !traverse_fmap.
  rewrite (traverse_rmap (pair_points pairs fst ∘ map g) (pair_points pairs fst) (map g))
    by (intros f _; apply pair_points_map).
  rewrite (traverse_rmap (pair_points pairs snd ∘ map g) (pair_points pairs snd) (map g))
    by (intros f _; apply pair_points_map).
  destruct (traverse (pair_points pairs fst) (promote Rs)) as [P0|e];
    [cbn [rmap bind]|done].
  destruct (traverse (pair_points pairs snd) (promote Rs)) as [P1|e];
    [cbn [rmap bind]|done].
  destruct (promote Rs) as [|f0 fs]; [done|]. cbn [map].
  assert (zip_with (zip_with (λ p q, norm (psub p q))) (map (map g) P0) (map (map g) P1)
          = map (map (Rmult c)) (zip_with (zip_with (λ p q, norm (psub p q))) P0 P1))
    as ->.
  { clear -Hg. revert P1. induction P0 as [|r0 P0 IH]; intros [|r1 P1]; cbn; try done.
    f_equal; [|apply IH].
    revert r1. induction r0 as [|a r0 IHr]; intros [|b r1]; cbn; try done.
    f_equal; [apply Hg|apply IHr]. }
  rewrite traverse_fmap. apply traverse_rmap. intros row _. by apply amax_scale.
Qed.

Lemma norm_scale (k : R) p q :
  norm (psub (pscale k p) (pscale k q)) = Rabs k * norm (psub p q).
Proof.
  rewrite !norm_R. destruct p as [x y z], q as [x' y' z']. cbn.
  rewrite <- sqrt_Rsqr_abs, <- sqrt_mult.
  - f_equal. unfold Rsqr. ring.
  - apply Rle_0_sqr.
  - repeat apply Rplus_le_le_0_compat; apply Rle_0_sqr.
Qed.

Lemma norm_translate t p q :
  norm (psub (padd p t) (padd q t)) = 1 * norm (psub p q).
Proof.
  rewrite !norm_R. destruct p as [x y z], q as [x' y' z'], t as [a b c]. cbn.
  rewrite Rmult_1_l. f_equal. ring.
Qed.

(** X1: scaling every coordinate by [k] multiplies the largest pair
    distance of every frame by [|k|]; failures are the same. *)
Theorem max_atom_pair_dist_scale (k : R) zs Rs :
  max_atom_pair_dist zs (transform (pscale k) Rs) =
    rmap (map (Rmult (Rabs k))) (max_atom_pair_dist zs Rs).
Proof.
  apply max_atom_pair_dist_similarity; [apply Rabs_pos|]. apply norm_scale.
Qed.

(** X2: translating every atom by the same vector [t] changes neither the
    largest pair distances nor the failures. *)
Theorem max_atom_pair_dist_translate t zs Rs :
  max_atom_pair_dist zs (transform (λ p, padd p t) Rs) = max_atom_pair_dist zs Rs.
Proof.
  rewrite (max_atom_pair_dist_similarity (λ p, padd p t) 1);
    [|lra|apply norm_translate].
  apply rmap_id. intros ds. rewrite <- (map_id ds) at 2.
  apply map_ext. intros d. lra.
Qed.

End SimilarityReal.

(** ** The center of mass under translation, and where it lies *)

Section CenterOfMassGeometry.
Local Open Scope R_scope.
Implicit Types (p q t : point R) (zs : list Z) (Rs : Coordinates R)
               (ms col : list R) (f : frame R).

Lemma Rsum_zip_shift (a : R) col ms :
  length col = length ms →
  Rsum (zip_with Rmult ((λ x, x + a) <$> col) ms) =
    Rsum (zip_with Rmult col ms) + a * Rsum ms.
Proof.
  revert ms. unfold Rsum.
  induction col as [|x col IH]; intros [|m ms] Hlen; cbn in *; try done; [lra|].
  rewrite IH by lia. lra.
Qed.

Lemma wmean_shift (a : R) ms col :
  length col = length ms → Rsum ms ≠ 0 →
  wmean (vsum ms) ms ((λ x, x + a) <$> col) = wmean (vsum ms) ms col + a.
Proof.
  intros Hlen Hne. unfold wmean. cbn [s_div s_mul R_scalar].
  rewrite !vsum_Rsum, Rsum_zip_shift by done. by field.
Qed.

Lemma np_average_translate t (fs : list (frame R)) ms :
  rect (length ms) fs →
  np_average (map (map (λ p, padd p t)) fs) ms =
    rmap (map (λ c, padd c t)) (np_average fs ms).
Proof.
  intros Hrect. unfold np_average.
  destruct (s_eqb (vsum ms) s_zero) eqn:Hz; [done|].
  apply Reqb_false in Hz. rewrite vsum_Rsum in Hz.
  cbn [rmap]. f_equal. rewrite !map_map.
  apply map_ext_in. intros f Hf%list_elem_of_In.
  assert (length f = length ms) as Hlen
    by (unfold rect in Hrect; rewrite Forall_forall in Hrect; by apply Hrect).
  rewrite <- !list_fmap_compose. unfold padd. cbn [px py pz s_add R_scalar].
  rewrite <- !wmean_shift by (by rewrite ?length_fmap).
  rewrite <- !list_fmap_compose. done.
Qed.

Lemma get_center_of_mass_shift (z_to_mass : gmap Z R) t zs Rs n :
  rect n (promote Rs) →
  get_center_of_mass z_to_mass zs (transform (λ p, padd p t) Rs) =
    rmap (map (λ c, padd c t)) (get_center_of_mass z_to_mass zs Rs).
Proof.
  intros Hrect. unfold get_center_of_mass. rewrite promote_transform.
  destruct (promote Rs) as [|f0 fs] eqn:HRs; [done|].
  cbn [map index lookup list_lookup bind]. rewrite length_map.
  destruct (traverse (mass_of z_to_mass zs) (seq 0 (length f0))) as [ms|e] eqn:Hms;
    [|done].
  cbn [bind].
  change (map (λ p, padd p t) f0 :: map (map (λ p, padd p t)) fs)
    with (map (map (λ p, padd p t)) (f0 :: fs)).
  apply np_average_translate.
  apply traverse_Forall2, Forall2_length in Hms. rewrite length_seq in Hms.
  assert (length f0 = n) as Hf0 by by inversion Hrect.
  by rewrite <- Hms, Hf0.
Qed.

(** X3: translating every atom of a rectangular array by a vector [t]
    translates every center of mass by [t], and changes no failure. *)
Theorem get_center_of_mass_translate (z_to_mass : gmap Z R) t zs Rs n :
  rect n (promote Rs) →
  get_center_of_mass z_to_mass zs (transform (λ p, padd p t) Rs) =
    rmap (map (λ c, padd c t)) (get_center_of_mass z_to_mass zs Rs).
Proof. apply get_center_of_mass_shift. Qed.

End CenterOfMassGeometry.

(** ** max_atom_pair_dist, frame by frame *)

Lemma index_Ok_inv {A} (l : list A) i a : index l i = Ok a ↔ l !! i = Some a.
Proof. unfold index. destruct (l !! i); split; congruence. Qed.

Section FramewiseMax.
Context {F : Type} `{!Scalar F}.
Implicit Types (zs : list Z) (f : frame F) (fs : list (frame F)) (ds : list F).

(** The run on a single frame, spelled out. *)
Lemma max_atom_pair_dist_frame zs f d :
  max_atom_pair_dist zs (Frame f) = Ok [d] ↔
  ∃ r0 r1,
    pair_points (combinations2 (length zs)) fst f = Ok r0 ∧
    pair_points (combinations2 (length zs)) snd f = Ok r1 ∧
    amax (zip_with (λ p q, norm (psub p q)) r0 r1) = Ok d.
Proof.
  unfold max_atom_pair_dist. cbn [promote traverse bind].
  destruct (pair_points _ fst f) as [r0|e0]; cbn [bind].
  2:{ split; [done|]. by intros (? & ? & ? & _). }
  destruct (pair_points _ snd f) as [r1|e1]; cbn [bind zip_with traverse].
  2:{ split; [done|]. by intros (? & ? & _ & ? & _). }
  destruct (amax _) as [d'|e] eqn:Hd; cbn [bind].
  - split.
    + intros [= ->]. by exists r0, r1.
    + intros (r0' & r1' & [= <-] & [= <-] & Hd'). congruence.
  - split; [done|]. intros (r0' & r1' & [= <-] & [= <-] & Hd'). congruence.
Qed.

(** A batch succeeds exactly when it is not empty and every frame
    succeeds on its own, and then frame [i] of the result is the result of
    frame [i]. *)
Lemma max_atom_pair_dist_frames zs fs ds :
  max_atom_pair_dist zs (Batch fs) = Ok ds ↔
  fs ≠ [] ∧ Forall2 (λ f d, max_atom_pair_dist zs (Frame f) = Ok [d]) fs ds.
Proof.
  set (pairs := combinations2 (length zs)).
  set (dist := λ p q : point F, norm (psub p q)).
  split.
  - unfold max_atom_pair_dist. cbn [promote]. fold pairs.
    destruct (traverse (pair_points pairs fst) fs) as [P0|e] eqn:H0; [|done].
    destruct (traverse (pair_points pairs snd) fs) as [P1|e] eqn:H1; [|done].
    cbn [bind]. destruct fs as [|f0 fs']; [done|]. fold dist.
    set (fs := f0 :: fs') in *. intros HD. split; [done|].
    apply traverse_Forall2 in H0, H1, HD.
    pose proof (Forall2_length _ _ _ H0) as L0.
    pose proof (Forall2_length _ _ _ H1) as L1.
    pose proof (Forall2_length _ _ _ HD) as LD. rewrite length_zip_with in LD.
    apply Forall2_same_length_lookup_2; [lia|].
    intros i f d Hf Hd.
    destruct (Forall2_lookup_l _ _ _ _ _ H0 Hf) as (r0 & Hr0 & Hp0).
    destruct (Forall2_lookup_l _ _ _ _ _ H1 Hf) as (r1 & Hr1 & Hp1).
    apply max_atom_pair_dist_frame. exists r0, r1. split; [done|]. split; [done|].
    assert (zip_with (zip_with dist) P0 P1 !! i = Some (zip_with dist r0 r1)) as Hrow.
    { apply lookup_zip_with_Some. by exists r0, r1. }
    by apply (Forall2_lookup_lr _ _ _ _ _ _ HD Hrow Hd).
  - intros [Hne Hall].
    assert (∀ i f d, fs !! i = Some f → ds !! i = Some d →
              ∃ r0 r1, pair_points pairs fst f = Ok r0 ∧
                       pair_points pairs snd f = Ok r1 ∧
                       amax (zip_with dist r0 r1) = Ok d) as Hi.
    { intros i f d Hf Hd. apply max_atom_pair_dist_frame.
      by apply (Forall2_lookup_lr _ _ _ _ _ _ Hall Hf Hd). }
    pose proof (Forall2_length _ _ _ Hall) as Lds.
    assert (∀ f, f ∈ fs → ∃ d, max_atom_pair_dist zs (Frame f) = Ok [d]) as Hf.
    { intros f [i Hfi]%list_elem_of_lookup.
      destruct (Forall2_lookup_l _ _ _ _ _ Hall Hfi) as (d & _ & Hd). by exists d. }
    destruct (traverse_total (pair_points pairs fst) fs) as [P0 H0].
    { intros f [d Hd]%Hf. apply max_atom_pair_dist_frame in Hd as (r0 & _ & ? & _).
      by exists r0. }
    destruct (traverse_total (pair_points pairs snd) fs) as [P1 H1].
    { intros f [d Hd]%Hf. apply max_atom_pair_dist_frame in Hd as (_ & r1 & _ & ? & _).
      by exists r1. }
    unfold max_atom_pair_dist. cbn [promote]. fold pairs. rewrite H0, H1. cbn [bind].
    destruct fs as [|f0 fs']; [done|]. fold dist. set (fs := f0 :: fs') in *.
    apply traverse_Forall2 in H0, H1. apply traverse_Forall2.
    pose proof (Forall2_length _ _ _ H0) as L0.
    pose proof (Forall2_length _ _ _ H1) as L1.
    apply Forall2_same_length_lookup_2; [rewrite length_zip_with; lia|].
    intros i row d Hrow Hd.
    apply lookup_zip_with_Some in Hrow as (r0 & r1 & -> & Hr0 & Hr1).
    destruct (Forall2_lookup_r _ _ _ _ _ H0 Hr0) as (f & Hfi & Hp0).
    destruct (Forall2_lookup_r _ _ _ _ _ H1 Hr1) as (f' & Hfi' & Hp1).
    assert (f' = f) as -> by congruence.
    destruct (Hi i f d Hfi Hd) as (r0' & r1' & Hp0' & Hp1' & Hmax). congruence.
Qed.

(** X4: [max_atom_pair_dist] treats the frames of a batch independently:
    a batch returns exactly when it is not empty and every frame returns on
    its own, and then the result of the batch lists the results of its
    frames in order. *)
Theorem max_atom_pair_dist_framewise zs fs :
  (∀ ds, max_atom_pair_dist zs (Batch fs) = Ok ds ↔
         fs ≠ [] ∧ Forall2 (λ f d, max_atom_pair_dist zs (Frame f) = Ok [d]) fs ds) ∧
  (∀ f e, f ∈ fs → max_atom_pair_dist zs (Frame f) = Raise e →
          ∃ e', max_atom_pair_dist zs (Batch fs) = Raise e').
Proof.
  split; [apply max_atom_pair_dist_frames|].
  intros f e [i Hi]%list_elem_of_lookup Hf.
  destruct (max_atom_pair_dist zs (Batch fs)) as [ds|e'] eqn:Hb; [|by eexists].
  apply max_atom_pair_dist_frames in Hb as [_ Hall].
  destruct (Forall2_lookup_l _ _ _ _ _ Hall Hi) as (d & _ & Hd). congruence.
Qed.

End FramewiseMax.

Section MaximumReal.
Local Open Scope R_scope.
Implicit Types (zs : list Z) (f : frame R) (fs : list (frame R)).

Lemma foldl_Rmax_ge (x : R) xs y : y ∈ x :: xs → y <= foldl Rmax x xs.
Proof.
  revert x y. induction xs as [|z xs IH]; intros x y Hy; cbn.
  - apply list_elem_of_singleton in Hy as ->. lra.
  - apply elem_of_cons in Hy as [->|Hy].
    + etrans; [apply (Rmax_l x z)|]. apply IH. by left.
    + apply elem_of_cons in Hy as [->|Hy].
      * etrans; [apply (Rmax_r x z)|]. apply IH. by left.
      * apply IH. by right.
Qed.

Lemma foldl_Rmax_elem (x : R) xs : foldl Rmax x xs ∈ x :: xs.
Proof.
  revert x. induction xs as [|z xs IH]; intros x; cbn; [by left|].
  specialize (IH (Rmax x z)). apply elem_of_cons in IH as [->|IH].
  - apply Rmax_case; [by left|by right; left].
  - by right; right.
Qed.

Lemma pair_points_Forall2 pairs sel f (r : frame R) :
  pair_points pairs sel f = Ok r →
  Forall2 (λ p pt, f !! sel p = Some pt) pairs r.
Proof.
  unfold pair_points. destruct pairs as [|p0 pairs]; [done|].
  intros Hr%traverse_Forall2. eapply Forall2_impl; [exact Hr|].
  cbn. intros p pt. by rewrite index_Ok_inv.
Qed.

(** X5: the value [max_atom_pair_dist] returns for a frame is the largest
    distance between two of its first [len(Z)] atoms: no pair is farther
    apart, and one pair is exactly that far apart. *)
Theorem max_atom_pair_dist_is_maximum zs fs ds i f d :
  max_atom_pair_dist zs (Batch fs) = Ok ds →
  fs !! i = Some f → ds !! i = Some d →
  (∀ a b pa pb, (a < b < length zs)%nat → f !! a = Some pa → f !! b = Some pb →
                norm (psub pa pb) <= d) ∧
  (∃ a b pa pb, (a < b < length zs)%nat ∧ f !! a = Some pa ∧ f !! b = Some pb ∧
                d = norm (psub pa pb)).
Proof.
  intros [_ Hall]%max_atom_pair_dist_frames Hf Hd.
  pose proof (Forall2_lookup_lr _ _ _ _ _ _ Hall Hf Hd) as Hfd.
  apply max_atom_pair_dist_frame in Hfd as (r0 & r1 & H0 & H1 & Hmax).
  apply pair_points_Forall2 in H0, H1.
  set (pairs := combinations2 (length zs)) in *.
  set (row := zip_with (λ p q, norm (psub p q)) r0 r1) in *.
  destruct row as [|x xs] eqn:Hrow; [done|]. injection Hmax as <-.
  split.
  - intros a b pa pb Hab Hpa Hpb.
    assert ((a, b) ∈ pairs) as [j Hj]%list_elem_of_lookup
      by by apply elem_of_combinations2.
    destruct (Forall2_lookup_l _ _ _ _ _ H0 Hj) as (pa' & Hr0 & Ha').
    destruct (Forall2_lookup_l _ _ _ _ _ H1 Hj) as (pb' & Hr1 & Hb').
    cbn in Ha', Hb'. assert (pa' = pa) as -> by congruence.
    assert (pb' = pb) as -> by congruence.
    apply foldl_Rmax_ge. rewrite <- Hrow. apply list_elem_of_lookup. exists j.
    unfold row. apply lookup_zip_with_Some. by exists pa, pb.
  - pose proof (foldl_Rmax_elem x xs) as Hin. rewrite <- Hrow in Hin.
    apply list_elem_of_lookup in Hin as [j Hj]. unfold row in Hj.
    apply lookup_zip_with_Some in Hj as (pa & pb & Hd' & Hr0 & Hr1).
    destruct (Forall2_lookup_r _ _ _ _ _ H0 Hr0) as ([a b] & Hp & Ha).
    destruct (Forall2_lookup_r _ _ _ _ _ H1 Hr1) as ([a' b'] & Hp' & Hb).
    assert ((a', b') = (a, b)) as [= -> ->] by congruence.
    exists a, b, pa, pb. split; [|done].
    apply elem_of_combinations2. by eapply list_elem_of_lookup_2.
Qed.

End MaximumReal.

(** ** com_distance_sum under translation *)

Lemma foldM_ext {A B} (f g : B → A → result B) acc l :
  (∀ b a, a ∈ l → f b a = g b a) → foldM f acc l = foldM g acc l.
Proof.
  revert acc. induction l as [|a l IH]; intros acc Hfg; [done|].
  cbn. rewrite Hfg by left. destruct (g acc a) as [acc'|e]; [cbn|done].
  apply IH. intros b a' Ha'. apply Hfg. by right.
Qed.

Lemma take_atoms_map {F} (g : point F → point F) (fs : list (frame F)) idxs :
  take_atoms (map (map g) fs) idxs = rmap (map (map g)) (take_atoms fs idxs).
Proof.
  unfold take_atoms. rewrite traverse_fmap. apply traverse_rmap.
  intros f _. cbn. apply traverse_rmap. intros i _. apply index_map.
Qed.

Lemma take_atoms_rect {F} (fs sub : list (frame F)) idxs :
  take_atoms fs idxs = Ok sub → rect (length idxs) sub.
Proof.
  intros Hsub%traverse_Forall2. unfold rect. apply Forall_forall.
  intros row [i Hi]%list_elem_of_lookup.
  destruct (Forall2_lookup_r _ _ _ _ _ Hsub Hi) as (f & _ & Hrow).
  apply traverse_Forall2, Forall2_length in Hrow. done.
Qed.

Section DistanceSumTranslation.
Local Open Scope R_scope.
Implicit Types (t : point R) (zs : list Z) (Rs : Coordinates R).

Lemma zip_with_norm_shift t (cs es : list (point R)) :
  zip_with (λ s e, norm (psub s e)) (map (λ c, padd c t) cs) (map (λ c, padd c t) es)
  = zip_with (λ s e, norm (psub s e)) cs es.
Proof.
  revert es. induction cs as [|c cs IH]; intros [|e es]; cbn [map zip_with]; try done.
  rewrite IH. f_equal. rewrite norm_translate. lra.
Qed.

Lemma entity_distances_shift (z_to_mass : gmap Z R) t zs fs entity_ids cm e :
  entity_distances z_to_mass zs (map (map (λ p, padd p t)) fs) entity_ids
    (map (λ c, padd c t) cm) e =
  entity_distances z_to_mass zs fs entity_ids cm e.
Proof.
  unfold entity_distances. rewrite take_atoms_map.
  destruct (take_atoms fs (np_where entity_ids e)) as [sub|err] eqn:Hsub; [|done].
  cbn [rmap bind].
  change (Batch (map (map (λ p, padd p t)) sub))
    with (transform (λ p, padd p t) (Batch sub)).
  rewrite (get_center_of_mass_shift z_to_mass t zs (Batch sub)
             (length (np_where entity_ids e))) by by eapply take_atoms_rect.
  destruct (get_center_of_mass z_to_mass zs (Batch sub)) as [cme|err]; [|done].
  cbn [rmap bind]. by rewrite zip_with_norm_shift.
Qed.

(** X6: translating every atom of a rectangular array by the same vector
    changes neither the result of [com_distance_sum] nor its failures,
    whatever the visiting order. *)
Theorem com_distance_sum_translate (z_to_mass : gmap Z R) (so : set_order)
    t zs Rs entity_ids n :
  rect n (promote Rs) →
  com_distance_sum z_to_mass so zs (transform (λ p, padd p t) Rs) entity_ids =
  com_distance_sum z_to_mass so zs Rs entity_ids.
Proof.
  intros Hrect. unfold com_distance_sum, com_distance_sum_in.
  rewrite promote_transform.
  change (Batch (map (map (λ p, padd p t)) (promote Rs)))
    with (transform (λ p, padd p t) (Batch (promote Rs))).
  rewrite (get_center_of_mass_shift z_to_mass t zs (Batch (promote Rs)) n) by done.
  destruct (get_center_of_mass z_to_mass zs (Batch (promote Rs))) as [cm|err];
    [|done].
  cbn [rmap bind]. rewrite length_map. apply foldM_ext.
  intros d e _. by rewrite entity_distances_shift.
Qed.

End DistanceSumTranslation.

(** ** com_distance_sum against the specification *)

Lemma traverse_map_Ok {A B} (f : A → result B) (g : A → B) l :
  (∀ a, a ∈ l → f a = Ok (g a)) → traverse f l = Ok (map g l).
Proof.
  induction l as [|a l IH]; intros Hfg; [done|].
  cbn. rewrite Hfg by left. cbn. rewrite IH; [done|].
  intros b Hb. apply Hfg. by right.
Qed.

Lemma zip_with_map_same {A B C D} (h : B → C → D) (g1 : A → B) (g2 : A → C) l :
  zip_with h (map g1 l) (map g2 l) = map (λ a, h (g1 a) (g2 a)) l.
Proof. induction l as [|a l IH]; [done|]. cbn. by rewrite IH. Qed.

Section Restrict.
Context {A : Type}.
Implicit Types (l : list A) (ids : list Z) (e : Z).

Lemma restrict_cons ids e x a l :
  restrict (x :: ids) e (a :: l) =
    if decide (x = e) then a :: restrict ids e l else restrict ids e l.
Proof.
  unfold restrict. cbn [zip zip_with]. rewrite filter_cons. cbn.
  by destruct (decide (x = e)).
Qed.

(** Indexing with [np.where(entity_ids == e)[0]] selects the entries of
    entity [e]. *)
Lemma traverse_index_where ids e l i :
  i + length ids ≤ length l →
  traverse (index l) (where_from i ids e) = Ok (restrict ids e (drop i l)).
Proof.
  revert i. induction ids as [|x ids IH]; intros i Hlen; [done|].
  cbn in Hlen. destruct (lookup_lt_is_Some_2 l i) as [a Ha]; [lia|].
  rewrite (drop_S l a i Ha), restrict_cons. cbn [where_from].
  destruct (decide (x = e)).
  - cbn [traverse]. rewrite (index_Ok _ _ _ Ha). cbn [bind].
    by rewrite IH by lia.
  - apply IH. lia.
Qed.

Lemma traverse_index_np_where ids e l :
  length ids ≤ length l →
  traverse (index l) (np_where ids e) = Ok (restrict ids e l).
Proof. intros Hlen. by rewrite <- (drop_0 l) at 2; apply traverse_index_where. Qed.

Lemma length_restrict ids e l :
  length ids ≤ length l → length (restrict ids e l) = length (np_where ids e).
Proof.
  intros Hlen%(traverse_index_np_where ids e).
  apply traverse_Forall2, Forall2_length in Hlen. done.
Qed.

Lemma elem_of_restrict ids e l a : a ∈ restrict ids e l → a ∈ l.
Proof.
  unfold restrict. intros ([x b] & -> & Hin)%list_elem_of_fmap.
  apply list_elem_of_filter in Hin as [_ Hin]. by apply elem_of_zip_r in Hin.
Qed.

End Restrict.

Lemma where_from_nonempty i ids e : e ∈ ids → where_from i ids e ≠ [].
Proof.
  revert i. induction ids as [|x ids IH]; intros i He; [by apply elem_of_nil in He|].
  cbn. destruct (decide (x = e)); [done|].
  apply IH. apply elem_of_cons in He as [->|He]; done.
Qed.

Lemma take_atoms_restrict {F} (fs : list (frame F)) ids e :
  (∀ f, f ∈ fs → length ids ≤ length f) →
  take_atoms fs (np_where ids e) = Ok (map (restrict ids e) fs).
Proof.
  intros Hlen. unfold take_atoms. apply traverse_map_Ok.
  intros f Hf. by apply traverse_index_np_where, Hlen.
Qed.

Section AgainstSpecification.
Local Open Scope R_scope.
Implicit Types (zs ids order : list Z) (ms : list R) (f : frame R)
               (fs : list (frame R)).

Lemma Rsum_pos ms : ms ≠ [] → (∀ m, m ∈ ms → 0 < m) → 0 < Rsum ms.
Proof.
  unfold Rsum. induction ms as [|m ms IH]; intros Hne Hpos; [done|]. cbn.
  assert (0 < m) by (apply Hpos; by left).
  destruct ms as [|m' ms]; [cbn; lra|].
  assert (0 < foldr Rplus 0 (m' :: ms)); [|lra].
  apply IH; [done|]. intros x Hx. apply Hpos. by right.
Qed.

Lemma norm_sym (p q : point R) : norm (psub p q) = norm (psub q p).
Proof.
  rewrite !norm_R. destruct p as [x y z], q as [x' y' z']. cbn. f_equal. ring.
Qed.

Lemma foldl_Rplus_terms {B} (t : B → R) (a : R) (l : list B) :
  foldl (λ acc e, acc + t e) a l = a + Rsum (map t l).
Proof.
  unfold Rsum. revert a. induction l as [|e l IH]; intros a; cbn; [lra|].
  rewrite IH. lra.
Qed.

(** The loop of [com_distance_sum] when every entity of the order yields
    its per-frame distances. *)
Lemma foldM_distances {B} (g : B → result (list R)) (term : B → frame R → R)
    (g0 : frame R → R) fs (order : list B) :
  (∀ e, e ∈ order → g e = Ok (map (term e) fs)) →
  foldM (λ d_sum e, let* d := g e in Ok (zip_with s_add d_sum d)) (map g0 fs) order
  = Ok (map (λ f, foldl (λ acc e, acc + term e f) (g0 f) order) fs).
Proof.
  revert g0. induction order as [|e order IH]; intros g0 Hg; [done|].
  cbn [foldM foldl]. rewrite Hg by left. cbn [bind].
  rewrite zip_with_map_same. cbn [s_add R_scalar].
  apply (IH (λ f, g0 f + term e f)). intros e' He'. apply Hg. by right.
Qed.

(** One turn of the loop, when the first atoms of the structure have the
    masses of the entity's atoms. *)
Lemma entity_distances_spec (z_to_mass : gmap Z R) zs ms fs ids e n :
  fs ≠ [] → rect n fs → length zs = n → length ids = n →
  masses_of z_to_mass zs ms → (∀ m, m ∈ ms → 0 < m) → e ∈ ids →
  take (length (restrict ids e ms)) ms = restrict ids e ms →
  entity_distances z_to_mass zs fs ids (map (center_of_mass_spec ms) fs) e =
    Ok (map (λ f, norm (psub (center_of_mass_spec ms f)
                             (center_of_mass_spec (restrict ids e ms)
                                                  (restrict ids e f)))) fs).
Proof.
  intros Hne Hrect Hzs Hids Hms Hpos He Htake. unfold entity_distances.
  pose proof (Forall2_length _ _ _ Hms) as Hlms.
  assert (∀ f, f ∈ fs → length f = n) as Hlen
    by (intros f Hf; unfold rect in Hrect; rewrite Forall_forall in Hrect; eauto).
  rewrite take_atoms_restrict by (intros f Hf; rewrite Hlen by done; lia).
  cbn [bind]. destruct fs as [|f0 fs']; [done|]. set (fs := f0 :: fs') in *.
  rewrite (get_center_of_mass_unfold z_to_mass zs ms _ (restrict ids e f0)
             (map (restrict ids e) fs')); [|done|done|].
  2:{ rewrite length_restrict by (rewrite Hlen by (by left); lia).
      rewrite <- (length_restrict ids e ms) by lia.
      rewrite <- Htake, length_take. lia. }
  assert (length (restrict ids e f0) = length (restrict ids e ms)) as ->.
  { rewrite !length_restrict; [done|lia|]. rewrite Hlen by (by left). lia. }
  rewrite Htake. cbn [promote].
  rewrite np_average_spec.
  2:{ apply Rgt_not_eq, Rlt_gt, Rsum_pos.
      - intros Hnil. apply (where_from_nonempty 0 ids e He).
        apply length_zero_iff_nil. fold (np_where ids e).
        rewrite <- (length_restrict ids e ms) by lia. by rewrite Hnil.
      - intros m Hm%elem_of_restrict. by apply Hpos. }
  cbn [bind]. f_equal. rewrite map_map.
  by rewrite (zip_with_map_same (λ s c, norm (psub s c))).
Qed.

(** [com_distance_sum] computes the specification's sum whenever, for
    every entity, the first atoms of the structure have the masses of the
    entity's atoms. *)
Lemma com_distance_sum_in_spec (z_to_mass : gmap Z R) order zs ms fs ids n :
  fs ≠ [] → rect n fs → (0 < n)%nat → length zs = n → length ids = n →
  masses_of z_to_mass zs ms → (∀ m, m ∈ ms → 0 < m) →
  (∀ e, e ∈ order → e ∈ ids) →
  (∀ e, e ∈ ids → take (length (restrict ids e ms)) ms = restrict ids e ms) →
  com_distance_sum_in z_to_mass order zs (Batch fs) ids =
    Ok (map (λ f, com_distance_sum_spec order ms f ids) fs).
Proof.
  intros Hne Hrect Hn Hzs Hids Hms Hpos Horder Htake.
  pose proof (Forall2_length _ _ _ Hms) as Hlms.
  unfold com_distance_sum_in. cbn [promote].
  rewrite (get_center_of_mass_spec z_to_mass zs ms);
    [|done|by rewrite Hzs|done|].
  2:{ apply Rgt_not_eq, Rlt_gt, Rsum_pos; [|done].
      intros ->. cbn in Hlms. lia. }
  cbn [bind promote].
  assert (replicate (length fs) s_zero = map (λ _, 0) fs) as ->.
  { clear. induction fs as [|f fs IH]; [done|]. cbn. f_equal. exact IH. }
  rewrite (foldM_distances _
             (λ e f, norm (psub (center_of_mass_spec ms f)
                                (center_of_mass_spec (restrict ids e ms)
                                                     (restrict ids e f))))).
  2:{ intros e He. by apply (entity_distances_spec z_to_mass zs ms fs ids e n);
        auto. }
  f_equal. apply map_ext. intros f. rewrite foldl_Rplus_terms.
  unfold com_distance_sum_spec. cbn [s_add s_zero R_scalar]. fold (Rsum).
  rewrite Rplus_0_l. unfold Rsum. f_equal. apply map_ext. intros e. apply norm_sym.
Qed.

End AgainstSpecification.

Section AgainstSpecificationTheorems.
Local Open Scope R_scope.
Implicit Types (zs ids : list Z) (ms : list R) (fs : list (frame R)).

(** X7: [com_distance_sum] returns the sum, over the entities, of the
    distance between the entity's own center of mass and the structure's,
    provided that for every entity the first atoms of the structure carry
    the masses of the entity's atoms, in order (a cluster of identical
    molecules listed alike, for instance). *)
Theorem com_distance_sum_matching_masses (z_to_mass : gmap Z R) (so : set_order)
    zs ms fs ids n :
  fs ≠ [] → rect n fs → (0 < n)%nat → length zs = n → length ids = n →
  masses_of z_to_mass zs ms → (∀ m, m ∈ ms → 0 < m) →
  (∀ e, e ∈ ids → take (length (restrict ids e ms)) ms = restrict ids e ms) →
  com_distance_sum z_to_mass so zs (Batch fs) ids =
    Ok (map (λ f, com_distance_sum_spec (so ids) ms f ids) fs).
Proof.
  intros. unfold com_distance_sum.
  apply (com_distance_sum_in_spec z_to_mass (so ids) zs ms fs ids n); auto.
  intros e. by rewrite iter_elem_of.
Qed.

Lemma restrict_replicate {A} (l : list A) e :
  restrict (replicate (length l) e) e l = l.
Proof.
  induction l as [|a l IH]; [done|]. cbn [length replicate].
  rewrite restrict_cons, decide_True by done. by rewrite IH.
Qed.

Lemma set_order_replicate (so : set_order) n e :
  (0 < n)%nat → so (replicate n e) = [e].
Proof.
  intros Hn. pose proof (iter_NoDup so (replicate n e)) as Hnd.
  assert (∀ x, x ∈ so (replicate n e) ↔ x = e) as Hx.
  { intros x. rewrite iter_elem_of, elem_of_replicate. split; [by intros [-> _]|].
    intros ->. split; [done|lia]. }
  destruct (so (replicate n e)) as [|x [|y l]].
  - exfalso. eapply elem_of_nil, Hx. done.
  - f_equal. apply Hx. by left.
  - assert (x = e) as -> by (apply Hx; by left).
    assert (y = e) as -> by (apply Hx; right; by left).
    apply NoDup_cons in Hnd as [Hnin _]. exfalso. apply Hnin. by left.
Qed.

Lemma norm_self (p : point R) : norm (psub p p) = 0.
Proof.
  rewrite norm_R. destruct p as [x y z]. cbn. rewrite <- sqrt_0. f_equal. ring.
Qed.

(** X8: when all atoms belong to one entity, [com_distance_sum] is zero
    for every frame. *)
Theorem com_distance_sum_single_entity (z_to_mass : gmap Z R) (so : set_order)
    zs ms fs e n :
  fs ≠ [] → rect n fs → (0 < n)%nat → length zs = n →
  masses_of z_to_mass zs ms → (∀ m, m ∈ ms → 0 < m) →
  com_distance_sum z_to_mass so zs (Batch fs) (replicate n e) =
    Ok (map (λ _, 0) fs).
Proof.
  intros Hne Hrect Hn Hzs Hms Hpos.
  pose proof (Forall2_length _ _ _ Hms) as Hlms.
  assert (∀ e', e' ∈ replicate n e → e' = e) as Hin
    by (intros e'; rewrite elem_of_replicate; by intros [-> _]).
  assert (restrict (replicate n e) e ms = ms) as Hres.
  { assert (n = length ms) as -> by lia. apply restrict_replicate. }
  unfold com_distance_sum.
  rewrite (com_distance_sum_in_spec z_to_mass _ zs ms fs (replicate n e) n); auto.
  - f_equal. apply map_ext_in. intros f Hf%list_elem_of_In.
    rewrite set_order_replicate by done.
    unfold com_distance_sum_spec. cbn [map foldr s_add s_zero R_scalar].
    rewrite Hres.
    assert (length f = n) as Hlen
      by (unfold rect in Hrect; rewrite Forall_forall in Hrect; eauto).
    rewrite <- Hlen, restrict_replicate, norm_self. lra.
  - by rewrite length_replicate.
  - intros e'. by rewrite iter_elem_of.
  - intros e' ->%Hin. rewrite Hres. apply take_ge. lia.
Qed.

Lemma length_where_from_le i ids e : (length (where_from i ids e) ≤ length ids)%nat.
Proof.
  revert i. induction ids as [|x ids IH]; intros i; cbn; [lia|].
  destruct (decide (x = e)); cbn; specialize (IH (S i)); lia.
Qed.

Lemma restrict_constant ids e (ms : list R) m :
  (∀ x, x ∈ ms → x = m) → length ids ≤ length ms →
  take (length (restrict ids e ms)) ms = restrict ids e ms.
Proof.
  intros Hm Hlen.
  assert (∀ l : list R, (∀ x, x ∈ l → x = m) → l = replicate (length l) m) as Hrep.
  { induction l as [|x l IH]; intros Hl; [done|]. cbn.
    rewrite (Hl x) by (by left). f_equal. apply IH. intros y Hy. apply Hl. by right. }
  rewrite (Hrep (restrict ids e ms)) at 2
    by (intros x Hx%elem_of_restrict; by apply Hm).
  rewrite (Hrep ms Hm) at 2. rewrite take_replicate. f_equal.
  apply Nat.min_l. rewrite length_restrict by done.
  pose proof (length_where_from_le 0 ids e). unfold np_where. lia.
Qed.

(** X9: for a structure whose atoms all have the same atomic number,
    [com_distance_sum] returns the sum, over the entities, of the distance
    between the entity's own center of mass and the structure's. *)
Theorem com_distance_sum_one_element (z_to_mass : gmap Z R) (so : set_order)
    z m fs ids n :
  fs ≠ [] → rect n fs → (0 < n)%nat → length ids = n →
  z_to_mass !! z = Some m → 0 < m →
  com_distance_sum z_to_mass so (replicate n z) (Batch fs) ids =
    Ok (map (λ f, com_distance_sum_spec (so ids) (replicate n m) f ids) fs).
Proof.
  intros Hne Hrect Hn Hids Hz Hm. unfold com_distance_sum.
  apply (com_distance_sum_in_spec z_to_mass (so ids) _ _ fs ids n); auto.
  - by rewrite length_replicate.
  - by apply Forall2_replicate.
  - intros x. rewrite elem_of_replicate. by intros [-> _].
  - intros e. by rewrite iter_elem_of.
  - intros e _. apply (restrict_constant ids e _ m).
    + intros x. rewrite elem_of_replicate. by intros [-> _].
    + rewrite length_replicate. lia.
Qed.

End AgainstSpecificationTheorems.

(** ** Failures *)


Section Failures.
Context {F : Type} `{!Scalar F}.
Implicit Types (c : Criteria F) (zs : list Z) (Rs : Coordinates F)
               (kw : kwargs F).



End Failures.

Section FailuresReal.
Local Open Scope R_scope.
Implicit Types (zs : list Z) (fs : list (frame R)).


(** X12: raising the cutoff never rejects a frame that was accepted, and
    leaves the descriptor values as they are. *)
Theorem accept_cutoff_monotone (d : descriptor R) (k : kwargs R) (c1 c2 : R)
    zs Rs kw a1 v :
  c1 <= c2 →
  accept (mkCriteria d k c1) zs Rs kw = Ok (a1, v) →
  ∃ a2, accept (mkCriteria d k c2) zs Rs kw = Ok (a2, v) ∧
        ∀ i, frame_at a1 i = Some true → frame_at a2 i = Some true.
Proof.
  intros Hc. unfold accept. cbn [desc desc_kwargs cutoff].
  destruct (merge_kwargs k kw) as [all_kw|e]; [cbn [bind]|done].
  destruct (d zs (Batch (promote Rs)) all_kw) as [desc_v|e]; [cbn [bind]|done].
  assert (∀ x, s_ltb x c1 = true → s_ltb x c2 = true) as Hmono
    by (intros x; rewrite !Rltb_true; lra).
  unfold decide_frames. destruct (decide (length (promote Rs) = 1%nat)).
  - destruct desc_v as [|v0 desc_v]; [done|]. cbn. intros [= <- <-].
    eexists. split; [done|]. intros i. cbn. destruct (decide (i = 0%nat)); [|done].
    intros [= Hv]. f_equal. by apply Hmono.
  - intros [= <- <-]. eexists. split; [done|]. intros i. cbn.
    rewrite !list_lookup_fmap. destruct (desc_v !! i) as [x|]; [|done]. cbn.
    intros [= Hv]. f_equal. by apply Hmono.
Qed.

End FailuresReal.

(** ** Where the center of mass lies *)

(** A successful run of [get_center_of_mass], taken apart. *)
Lemma get_center_of_mass_Ok_inv {F} `{!Scalar F} (z_to_mass : gmap Z F) zs Rs cm :
  get_center_of_mass z_to_mass zs Rs = Ok cm →
  ∃ f0 fs ms,
    promote Rs = f0 :: fs ∧
    Forall2 (λ i m, mass_of z_to_mass zs i = Ok m) (seq 0 (length f0)) ms ∧
    s_eqb (vsum ms) s_zero = false ∧
    cm = map (λ f, Point (wmean (vsum ms) ms (px <$> f))
                         (wmean (vsum ms) ms (py <$> f))
                         (wmean (vsum ms) ms (pz <$> f))) (promote Rs).
Proof.
  unfold get_center_of_mass. intros Hcm.
  destruct (promote Rs) as [|f0 fs] eqn:HRs; [done|].
  change (index (f0 :: fs) 0) with (Ok (A:=frame F) f0) in Hcm. cbn [bind] in Hcm.
  destruct (traverse (mass_of z_to_mass zs) (seq 0 (length f0))) as [ms|e] eqn:Hms;
    [|done].
  cbn [bind] in Hcm. unfold np_average in Hcm.
  destruct (s_eqb (vsum ms) s_zero) eqn:Hz; [done|]. injection Hcm as <-.
  exists f0, fs, ms. split; [done|]. split; [by apply traverse_Forall2|done].
Qed.

Section CenterOfMassBounds.
Local Open Scope R_scope.
Implicit Types (zs : list Z) (ms col : list R) (f : frame R).

Lemma Rsum_zip_bounds lo hi col ms :
  length col = length ms → (∀ m, m ∈ ms → 0 < m) →
  (∀ x, x ∈ col → lo <= x <= hi) →
  lo * Rsum ms <= Rsum (zip_with Rmult col ms) <= hi * Rsum ms.
Proof.
  unfold Rsum. revert ms.
  induction col as [|x col IH]; intros [|m ms] Hlen Hpos Hcol; cbn in *;
    try done; [lra|].
  assert (0 < m) by (apply Hpos; by left).
  assert (lo <= x <= hi) by (apply Hcol; by left).
  assert (lo * foldr Rplus 0 ms <= foldr Rplus 0 (zip_with Rmult col ms)
          <= hi * foldr Rplus 0 ms) as [IHlo IHhi].
  { apply IH; [lia| |].
    - intros m' Hm'. apply Hpos. by right.
    - intros x' Hx'. apply Hcol. by right. }
  nra.
Qed.

Lemma wmean_bounds lo hi col ms :
  length col = length ms → ms ≠ [] → (∀ m, m ∈ ms → 0 < m) →
  (∀ x, x ∈ col → lo <= x <= hi) →
  lo <= wmean (vsum ms) ms col <= hi.
Proof.
  intros Hlen Hne Hpos Hcol. unfold wmean. cbn [s_div s_mul R_scalar].
  rewrite !vsum_Rsum.
  pose proof (Rsum_pos ms Hne Hpos) as HS.
  destruct (Rsum_zip_bounds lo hi col ms Hlen Hpos Hcol) as [Hlo Hhi].
  split.
  - apply (Rmult_le_reg_r (Rsum ms)); [done|].
    unfold Rdiv. rewrite Rmult_assoc, Rinv_l by lra. lra.
  - apply (Rmult_le_reg_r (Rsum ms)); [done|].
    unfold Rdiv. rewrite Rmult_assoc, Rinv_l by lra. lra.
Qed.

(** X13: with positive masses the center of mass of a frame lies in the
    bounding box of its atoms: each of its coordinates is between the
    smallest and the largest such coordinate of the atoms. *)
Theorem get_center_of_mass_within_bounds (z_to_mass : gmap Z R) zs Rs n cm i f c
    (sel : point R → R) lo hi :
  (∀ z m, z_to_mass !! z = Some m → 0 < m) →
  rect n (promote Rs) →
  get_center_of_mass z_to_mass zs Rs = Ok cm →
  promote Rs !! i = Some f → cm !! i = Some c →
  sel = px ∨ sel = py ∨ sel = pz →
  (∀ p, p ∈ f → lo <= sel p <= hi) →
  lo <= sel c <= hi.
Proof.
  intros Htable Hrect Hcm Hf Hc Hsel Hbox.
  apply get_center_of_mass_Ok_inv in Hcm as (f0 & fs & ms & HRs & Hms & Hz & ->).
  apply Reqb_false in Hz. rewrite vsum_Rsum in Hz.
  assert (length f = length ms) as Hlen.
  { apply Forall2_length in Hms. rewrite length_seq in Hms.
    unfold rect in Hrect. rewrite Forall_forall in Hrect.
    rewrite (Hrect f) by (by eapply list_elem_of_lookup_2).
    rewrite <- Hms. symmetry. apply Hrect. rewrite HRs. by left. }
  assert (∀ m, m ∈ ms → 0 < m) as Hpos.
  { intros m [j Hj]%list_elem_of_lookup.
    destruct (Forall2_lookup_r _ _ _ _ _ Hms Hj) as (k & _ & Hk).
    unfold mass_of in Hk. destruct (index zs k) as [z|err]; [cbn in Hk|done].
    destruct (z_to_mass !! z) as [m'| ] eqn:Hz'; [|done].
    injection Hk as ->. by eapply Htable. }
  assert (ms ≠ []) as Hne by (intros ->; by apply Hz).
  rewrite list_lookup_fmap, Hf in Hc. injection Hc as <-.
  assert (∀ g : point R → R, (∀ p, p ∈ f → lo <= g p <= hi) →
            lo <= wmean (vsum ms) ms (g <$> f) <= hi) as Hg.
  { intros g Hgb. apply wmean_bounds; [by rewrite length_fmap|done..|].
    intros x (p & -> & Hp)%list_elem_of_fmap. by apply Hgb. }
  destruct Hsel as [-> | [-> | ->]]; cbn; by apply Hg.
Qed.

End CenterOfMassBounds.

(** * writers/ase_db.py *)

Section WriteAseDbFacts.
Context {F atoms : Type}.
Variable single_point :
  list Z → frame F → option F → option (frame F) → result atoms.
Implicit Types (db rows : list atoms) (zs : list Z) (Rs : list (frame F)).

(** The loop writes the rows of the indices that succeed, in order, up to
    the first index that fails. *)
Lemma write_rows_prefix (row_of : nat → result atoms) k n db db' out :
  write_rows row_of (seq k n) db = (db', out) →
  ∃ rows, db' = db ++ rows ∧
    (∀ i row, rows !! i = Some row → row_of (k + i) = Ok row) ∧
    match out with
    | Ok _ => length rows = n
    | Raise e => length rows < n ∧ row_of (k + length rows) = Raise e
    end.
Proof.
  revert k db. induction n as [|n IH]; intros k db; cbn.
  - intros [= <- <-]. exists []. rewrite app_nil_r. split; [done|]. split; [|done].
    intros i row Hi. by rewrite lookup_nil in Hi.
  - destruct (row_of k) as [row|e] eqn:Hk.
    + intros Hw. destruct (IH _ _ Hw) as (rows & -> & Hrows & Hout).
      exists (row :: rows). split; [by rewrite <- app_assoc|]. split.
      * intros [|i] row' Hi; cbn in Hi.
        -- injection Hi as <-. by rewrite Nat.add_0_r.
        -- rewrite <- Nat.add_succ_comm. by apply Hrows.
      * destruct out as [[]|e]; cbn [length].
        -- lia.
        -- destruct Hout as [Hlt He]. split; [lia|].
           by rewrite <- Nat.add_succ_comm.
    + intros [= <- <-]. exists []. rewrite app_nil_r. split; [done|]. split.
      * intros i row Hi. by rewrite lookup_nil in Hi.
      * cbn. split; [lia|]. by rewrite Nat.add_0_r.
Qed.

(** X14: [write_ase_db] only appends.  The database afterwards is the
    database before followed by one row per frame, in frame order, up to
    the first frame whose row cannot be built; the rows of the frames before
    it are written and stay written when the call raises. *)
Theorem write_ase_db_appends db zs Rs energy forces db' out :
  write_ase_db single_point db zs Rs energy forces = (db', out) →
  ∃ rows, db' = db ++ rows ∧
    (∀ i row, rows !! i = Some row →
              ase_row_of single_point zs Rs energy forces i = Ok row) ∧
    match out with
    | Ok _ => length rows = length Rs
    | Raise e => length rows < length Rs ∧
                 ase_row_of single_point zs Rs energy forces (length rows) = Raise e
    end.
Proof. intros Hw. by apply (write_rows_prefix _ 0) in Hw. Qed.

(** X15: when [energy] has fewer entries than there are frames (forces not
    given, every ASE object built), [write_ase_db] writes the first
    [len(energy)] structures and then raises [IndexError]. *)
Theorem write_ase_db_short_energy db zs Rs (energy : list F) :
  length energy < length Rs →
  (∀ r e, r ∈ Rs → ∃ a, single_point zs r e None = Ok a) →
  ∃ rows, write_ase_db single_point db zs Rs (Some energy) None =
            (db ++ rows, Raise IndexError) ∧
          length rows = length energy.
Proof.
  intros Hlen Hbuilt.
  assert (∀ i, i < length energy →
            ∃ row, ase_row_of single_point zs Rs (Some energy) None i = Ok row)
    as Hok.
  { intros i Hi. unfold ase_row_of. cbn.
    destruct (lookup_lt_is_Some_2 energy i Hi) as [x Hx].
    destruct (lookup_lt_is_Some_2 Rs i) as [r Hr]; [lia|].
    destruct (Hbuilt r (Some x)) as [a Ha]; [by eapply list_elem_of_lookup_2|].
    rewrite (index_Ok _ _ _ Hx). cbn. rewrite (index_Ok _ _ _ Hr). cbn.
    rewrite Ha. by eexists. }
  assert (ase_row_of single_point zs Rs (Some energy) None (length energy)
          = Raise IndexError) as Hfail.
  { unfold ase_row_of. cbn. by rewrite index_Raise. }
  destruct (write_ase_db single_point db zs Rs (Some energy) None)
    as [db' out] eqn:Hw.
  destruct (write_rows_prefix _ 0 _ _ _ _ Hw) as (rows & -> & Hrows & Hout).
  exists rows. cbn in Hrows, Hout.
  assert (length rows = length energy) as Hl.
  { destruct (Nat.lt_trichotomy (length rows) (length energy)) as [Hlt|[Heq|Hgt]];
      [|done|].
    - destruct (Hok _ Hlt) as [row Hrow].
      destruct out as [[]|e]; [lia|]. destruct Hout as [_ He]. congruence.
    - destruct (lookup_lt_is_Some_2 rows (length energy) Hgt) as [row Hrow].
      apply Hrows in Hrow. congruence. }
  split; [|done]. f_equal.
  destruct out as [[]|e]; [lia|]. destruct Hout as [_ He]. rewrite Hl in He.
  congruence.
Qed.

End WriteAseDbFacts.

(** * parsers/crest_parser.py *)

Section ParserFacts.
Context {F A : Type} `{Countable A}.
Variable py_float : string → option F.

(** X16: the atoms of the structures of a CREST file are accepted exactly
    when there is at least one structure and all structures list the same
    atoms; the common list is returned.  A file without structures and a
    file with two different atom lists both raise [ValueError]. *)
Theorem consistent_atoms_iff (Zs : list (list A)) :
  (∀ z, consistent_atoms Zs = Ok z ↔ Zs ≠ [] ∧ ∀ x, x ∈ Zs → x = z) ∧
  (∀ e, consistent_atoms Zs = Raise e → e = ValueError).
Proof.
  unfold consistent_atoms.
  destruct (decide (size (list_to_set (C:=gset (list A)) Zs) = 1)) as [H1|H1].
  - apply size_1_elem_of in H1 as [z0 Hz0].
    assert (∀ x, x ∈ Zs ↔ x = z0) as Hin.
    { intros x. rewrite <- (elem_of_list_to_set (C:=gset (list A))), Hz0.
      apply elem_of_singleton. }
    destruct Zs as [|z1 Zs].
    { exfalso. apply (elem_of_nil z0). by apply Hin. }
    assert (z1 = z0) as -> by (apply Hin; by left).
    split.
    + intros z. cbn. split.
      * intros [= <-]. split; [done|]. intros x. apply Hin.
      * intros [_ Hz]. f_equal. apply Hz. by left.
    + intros e. done.
  - split; [|by intros e [= <-]].
    intros z. split; [done|]. intros [Hne Hz]. exfalso. apply H1.
    assert (list_to_set (C:=gset (list A)) Zs = {[z]}) as ->; [|apply size_singleton].
    apply set_eq. intros x. rewrite elem_of_list_to_set, elem_of_singleton.
    split; [apply Hz|]. intros ->.
    destruct Zs as [|z1 Zs]; [done|]. rewrite <- (Hz z1) by (by left). by left.
Qed.

Lemma rotamer_line_Ok (line : string) (ei wi : F) :
  rotamer_line py_float line = Ok (ei, wi) ↔
  ∃ e w x, py_split line = [e; w; x] ∧
           py_float e = Some ei ∧ py_float w = Some wi.
Proof.
  unfold rotamer_line, to_float.
  destruct (py_split line) as [|e [|w [|x [|y l]]]];
    try (split; [done|by intros (? & ? & ? & ? & _)]).
  destruct (py_float e) as [e'|] eqn:He; cbn.
  2:{ split; [done|]. intros (? & ? & ? & [= <- <- <-] & ? & _). congruence. }
  destruct (py_float w) as [w'|] eqn:Hw; cbn.
  2:{ split; [done|]. intros (? & ? & ? & [= <- <- <-] & _ & ?). congruence. }
  split.
  - intros [= <- <-]. by exists e, w, x.
  - intros (? & ? & ? & [= <- <- <-] & ? & ?). congruence.
Qed.

Lemma rotamer_line_Raise (line : string) e :
  rotamer_line py_float line = Raise e → e = ValueError.
Proof.
  unfold rotamer_line, to_float.
  destruct (py_split line) as [|a [|b [|c [|d l]]]]; try by intros [= <-].
  destruct (py_float a); cbn; [|by intros [= <-]].
  destruct (py_float b); cbn; [done|by intros [= <-]].
Qed.

(** X17: for a rotamer file the energies and the ensemble weights are read
    from the first two of the three whitespace-separated fields of each
    comment line, one entry per line and in line order; a line with another
    number of fields, or a field that is no number, makes the whole loop
    fail with [ValueError]. *)
Theorem rotamer_comments_aligned (comments : list string) :
  (∀ E W, rotamer_comments py_float comments = Ok (E, W) ↔
     length E = length comments ∧ length W = length comments ∧
     ∀ i line, comments !! i = Some line →
       ∃ e w x ei wi, py_split line = [e; w; x] ∧
         py_float e = Some ei ∧ py_float w = Some wi ∧
         E !! i = Some ei ∧ W !! i = Some wi) ∧
  (∀ err, rotamer_comments py_float comments = Raise err → err = ValueError).
Proof.
  unfold rotamer_comments. split.
  - intros E W. split.
    + destruct (traverse (rotamer_line py_float) comments) as [ews|e] eqn:Ht;
        [cbn|done].
      intros [= <- <-]. apply traverse_Forall2 in Ht.
      pose proof (Forall2_length _ _ _ Ht) as Hlen.
      rewrite !length_map. split; [done|]. split; [done|].
      intros i line Hi.
      destruct (Forall2_lookup_l _ _ _ _ _ Ht Hi) as ([ei wi] & Hews & Hline).
      apply rotamer_line_Ok in Hline as (e & w & x & Hs & He & Hw).
      exists e, w, x, ei, wi. rewrite !list_lookup_fmap, Hews. done.
    + intros (HE & HW & Hlines).
      assert (traverse (rotamer_line py_float) comments = Ok (zip E W)) as ->.
      { apply traverse_Forall2, Forall2_same_length_lookup_2.
        - rewrite length_zip_with. lia.
        - intros i line [ei wi] Hi Hz.
          apply lookup_zip_with_Some in Hz as (ei' & wi' & [= <- <-] & HEi & HWi).
          destruct (Hlines i line Hi) as (e & w & x & ei' & wi' & ? & ? & ? & ? & ?).
          apply rotamer_line_Ok. exists e, w, x. split; [done|]. split; congruence. }
      cbn. f_equal. f_equal; [apply fst_zip|apply snd_zip]; lia.
  - intros err.
    destruct (traverse (rotamer_line py_float) comments) as [ews|e] eqn:Ht;
      [done|]. cbn. intros [= <-].
    apply traverse_Raise_inv in Ht as (line & _ & Hline).
    by apply rotamer_line_Raise in Hline.
Qed.

End ParserFacts.

(** * Batches and their frames *)

Section FramewiseCenterOfMass.
Context {F : Type} `{!Scalar F}.
Variable z_to_mass : gmap Z F.
Implicit Types (zs : list Z) (f : frame F) (fs : list (frame F)).

Lemma get_center_of_mass_frame zs f ms :
  traverse (mass_of z_to_mass zs) (seq 0 (length f)) = Ok ms →
  s_eqb (vsum ms) s_zero = false →
  get_center_of_mass z_to_mass zs (Frame f) =
    Ok [Point (wmean (vsum ms) ms (px <$> f))
              (wmean (vsum ms) ms (py <$> f))
              (wmean (vsum ms) ms (pz <$> f))].
Proof.
  intros Hms Hz. unfold get_center_of_mass. cbn [promote].
  change (index [f] 0) with (Ok (A:=frame F) f). cbn [bind]. rewrite Hms.
  cbn [bind]. unfold np_average. by rewrite Hz.
Qed.

(** X18: [get_center_of_mass] treats the frames of a rectangular batch
    independently: the batch returns exactly when it is not empty and every
    frame returns on its own, and then its result lists the centers of mass
    of the frames in order. *)
Theorem get_center_of_mass_framewise zs fs n cm :
  rect n fs →
  get_center_of_mass z_to_mass zs (Batch fs) = Ok cm ↔
  fs ≠ [] ∧
  Forall2 (λ f c, get_center_of_mass z_to_mass zs (Frame f) = Ok [c]) fs cm.
Proof.
  intros Hrect. unfold rect in Hrect. rewrite Forall_forall in Hrect. split.
  - intros (f0 & fs' & ms & HRs & Hms & Hz & ->)%get_center_of_mass_Ok_inv.
    cbn [promote] in *. split; [by rewrite HRs|].
    apply Forall2_fmap_r, Forall_Forall2_diag, Forall_forall. intros f Hf.
    apply get_center_of_mass_frame; [|done]. apply traverse_Forall2.
    rewrite (Hrect f Hf), <- (Hrect f0) by (rewrite HRs; by left). done.
  - intros [Hne Hall]. destruct fs as [|f0 fs']; [done|].
    destruct cm as [|c0 cm']; [by apply Forall2_length in Hall|].
    pose proof (Forall2_cons_1 _ _ _ _ _ Hall) as [H0 _].
    apply get_center_of_mass_Ok_inv in H0 as (f0' & ? & ms & [= <- <-] & Hms & Hz & _).
    apply traverse_Forall2 in Hms.
    unfold get_center_of_mass. cbn [promote].
    change (index (f0 :: fs') 0) with (Ok (A:=frame F) f0). cbn [bind].
    rewrite Hms. cbn [bind]. unfold np_average. rewrite Hz. f_equal.
    apply list_eq_Forall2, Forall2_fmap_l, Forall2_same_length_lookup_2;
      [by eapply Forall2_length|].
    intros i f c Hf Hc.
    pose proof (Forall2_lookup_lr _ _ _ _ _ _ Hall Hf Hc) as Hfc.
    cbv beta in Hfc.
    rewrite (get_center_of_mass_frame zs f ms) in Hfc; [congruence| |done].
    rewrite (Hrect f) by (by eapply list_elem_of_lookup_2).
    rewrite <- (Hrect f0) by (by left). done.
Qed.

End FramewiseCenterOfMass.

Section WriteAseDbComplete.
Context {F atoms : Type}.
Variable single_point :
  list Z → frame F → option F → option (frame F) → result atoms.
Implicit Types (db rows : list atoms) (zs : list Z) (Rs : list (frame F)).

(** X19: when [energy] and [forces], where given, have an entry for every
    frame and every ASE object is built, [write_ase_db] returns after
    appending exactly one row per frame, row [i] built from frame [i],
    [energy[i]] and [forces[i]]. *)
Theorem write_ase_db_all_written db zs Rs energy forces :
  (∀ l, energy = Some l → length Rs ≤ length l) →
  (∀ l, forces = Some l → length Rs ≤ length l) →
  (∀ r e f, r ∈ Rs → ∃ a, single_point zs r e f = Ok a) →
  ∃ rows, write_ase_db single_point db zs Rs energy forces = (db ++ rows, Ok tt) ∧
    length rows = length Rs ∧
    ∀ i r, Rs !! i = Some r →
      ∃ a, rows !! i = Some a ∧
           single_point zs r (energy ≫= (.!! i)) (forces ≫= (.!! i)) = Ok a.
Proof.
  intros Hen Hfo Hbuilt.
  assert (∀ {A} (x : option (list A)) i, i < length Rs →
            (∀ l, x = Some l → length Rs ≤ length l) →
            index_opt x i = Ok (x ≫= (.!! i))) as Hopt.
  { intros A x i Hi Hx. destruct x as [l|]; [|done]. cbn.
    destruct (lookup_lt_is_Some_2 l i) as [a Ha]; [specialize (Hx l eq_refl); lia|].
    by rewrite (index_Ok _ _ _ Ha), Ha. }
  assert (∀ i r, Rs !! i = Some r →
            ase_row_of single_point zs Rs energy forces i =
              single_point zs r (energy ≫= (.!! i)) (forces ≫= (.!! i))) as Hrow.
  { intros i r Hr. pose proof (lookup_lt_Some _ _ _ Hr) as Hi. unfold ase_row_of.
    rewrite !Hopt by done. cbn. by rewrite (index_Ok _ _ _ Hr). }
  destruct (write_ase_db single_point db zs Rs energy forces) as [db' out] eqn:Hw.
  destruct (write_rows_prefix _ 0 _ _ _ _ Hw) as (rows & -> & Hrows & Hout).
  cbn in Hrows, Hout. exists rows.
  destruct out as [[]|e].
  - split; [done|]. split; [done|]. intros i r Hr.
    destruct (lookup_lt_is_Some_2 rows i) as [a Ha].
    { apply lookup_lt_Some in Hr. lia. }
    exists a. split; [done|]. rewrite <- (Hrow i r Hr). by apply Hrows.
  - exfalso. destruct Hout as [Hlt He].
    destruct (lookup_lt_is_Some_2 Rs (length rows) Hlt) as [r Hr].
    rewrite (Hrow _ r Hr) in He.
    destruct (Hbuilt r (energy ≫= (.!! length rows)) (forces ≫= (.!! length rows)))
      as [a Ha]; [by eapply list_elem_of_lookup_2|]. congruence.
Qed.

End WriteAseDbComplete.

(** * Runs of the further properties *)

Section FurtherRunsReal.
Local Open Scope R_scope.

Lemma masses_R_positive z m : masses_R !! z = Some m → 0 < m.
Proof.
  unfold masses_R. intros [[_ <-]|[_ Hm]]%lookup_insert_Some; [lra|].
  apply lookup_singleton_Some in Hm as [_ <-]. lra.
Qed.

Lemma get_center_of_mass_h2_R :
  get_center_of_mass masses_R [1; 1]%Z (Frame h2_R) = Ok [Point 0 0 0.5].
Proof.
  rewrite (get_center_of_mass_spec masses_R [1; 1]%Z [1.008; 1.008]);
    [|done|by repeat constructor|by repeat constructor|unfold Rsum; cbn; lra].
  unfold h2_R, center_of_mass_spec. cbn. do 2 f_equal. f_equal; lra.
Qed.

Lemma accept_h2_R :
  accept (mkCriteria desc_max_atom_pair_dist ∅ 2) [1; 1]%Z (Frame h2_R) ∅ =
    Ok (Item true, Item 1).
Proof.
  change (mkCriteria desc_max_atom_pair_dist ∅ 2) with (max_dist_below 2).
  rewrite accept_max_dist. cbn [promote].
  change (max_atom_pair_dist [1; 1]%Z (Batch [h2_R]))
    with (max_atom_pair_dist [1; 1]%Z (Frame h2_R)).
  rewrite max_atom_pair_dist_h2_R. cbn [bind length]. rewrite decide_frames_one.
  do 3 f_equal. apply Rltb_true. lra.
Qed.

Lemma positive_elements (ms : list R) :
  Forall (λ m, 0 < m) ms → ∀ m, m ∈ ms → 0 < m.
Proof. intros Hall m Hm. by eapply Forall_forall in Hall. Qed.

Lemma get_center_of_mass_translate_witness :
  rect 3 (promote (Frame oh2_R)) ∧
  get_center_of_mass masses_R oh2_Z (transform (λ p, padd p shift_R) (Frame oh2_R)) =
    rmap (map (λ c, padd c shift_R))
         (get_center_of_mass masses_R oh2_Z (Frame oh2_R)).
Proof.
  assert (rect 3 (promote (Frame oh2_R))) as Hrect by by repeat constructor.
  split; [done|]. by apply (get_center_of_mass_translate masses_R shift_R oh2_Z
                              (Frame oh2_R) 3%nat).
Defined.

Lemma max_atom_pair_dist_is_maximum_witness :
  max_atom_pair_dist [1; 1]%Z (Batch [h2_R]) = Ok [1] ∧
  ∃ a b pa pb, (a < b < 2)%nat ∧ h2_R !! a = Some pa ∧ h2_R !! b = Some pb ∧
               1 = norm (psub pa pb).
Proof.
  assert (max_atom_pair_dist [1; 1]%Z (Batch [h2_R]) = Ok [1]) as Hmax
    by exact max_atom_pair_dist_h2_R.
  split; [done|].
  exact (proj2 (max_atom_pair_dist_is_maximum [1; 1]%Z [h2_R] [1] 0%nat h2_R 1
                  Hmax eq_refl eq_refl)).
Defined.

Lemma com_distance_sum_translate_witness :
  rect 3 (promote (Frame oh2_R)) ∧
  com_distance_sum masses_R gset_order oh2_Z
    (transform (λ p, padd p shift_R) (Frame oh2_R)) oh2_entities =
  com_distance_sum masses_R gset_order oh2_Z (Frame oh2_R) oh2_entities.
Proof.
  assert (rect 3 (promote (Frame oh2_R))) as Hrect by by repeat constructor.
  split; [done|]. by apply (com_distance_sum_translate masses_R gset_order shift_R
                              oh2_Z (Frame oh2_R) oh2_entities 3%nat).
Defined.

Lemma masses_of_dimer : masses_of masses_R dimer_Z dimer_masses_R.
Proof. by repeat constructor. Qed.

Lemma dimer_masses_positive : ∀ m, m ∈ dimer_masses_R → 0 < m.
Proof. apply positive_elements. repeat constructor; lra. Qed.

Lemma dimer_entities_match e :
  e ∈ dimer_entities →
  take (length (restrict dimer_entities e dimer_masses_R)) dimer_masses_R =
    restrict dimer_entities e dimer_masses_R.
Proof.
  unfold dimer_entities. rewrite !elem_of_cons, elem_of_nil.
  intros [->|[->|[->|[->|[->|[->|[]]]]]]]; reflexivity.
Qed.

Lemma com_distance_sum_matching_masses_witness :
  [dimer_R] ≠ [] ∧ rect 6 [dimer_R] ∧
  masses_of masses_R dimer_Z dimer_masses_R ∧
  com_distance_sum masses_R gset_order dimer_Z (Batch [dimer_R]) dimer_entities =
    Ok [com_distance_sum_spec (gset_order dimer_entities) dimer_masses_R dimer_R
          dimer_entities].
Proof.
  assert (rect 6 [dimer_R]) as Hrect by by repeat constructor.
  split; [done|]. split; [done|]. split; [apply masses_of_dimer|].
  apply (com_distance_sum_matching_masses masses_R gset_order dimer_Z dimer_masses_R
           [dimer_R] dimer_entities 6%nat);
    [done|done|lia|done|done|apply masses_of_dimer|apply dimer_masses_positive
    |apply dimer_entities_match].
Defined.

Lemma oh2_masses_positive : ∀ m, m ∈ oh2_masses_R → 0 < m.
Proof. apply positive_elements. repeat constructor; lra. Qed.

Lemma com_distance_sum_single_entity_witness :
  [oh2_R] ≠ [] ∧ rect 3 [oh2_R] ∧ masses_of masses_R oh2_Z oh2_masses_R ∧
  com_distance_sum masses_R gset_order oh2_Z (Batch [oh2_R]) [7; 7; 7]%Z = Ok [0].
Proof.
  assert (rect 3 [oh2_R]) as Hrect by by repeat constructor.
  split; [done|]. split; [done|]. split; [apply masses_of_oh2|].
  apply (com_distance_sum_single_entity masses_R gset_order oh2_Z oh2_masses_R
           [oh2_R] 7%Z 3%nat);
    [done|done|lia|done|apply masses_of_oh2|apply oh2_masses_positive].
Defined.

Lemma com_distance_sum_one_element_witness :
  [h2_R] ≠ [] ∧ rect 2 [h2_R] ∧ masses_R !! 1%Z = Some 1.008 ∧ 0 < 1.008 ∧
  com_distance_sum masses_R gset_order [1; 1]%Z (Batch [h2_R]) [0; 1]%Z =
    Ok [com_distance_sum_spec (gset_order [0; 1]%Z) [1.008; 1.008] h2_R [0; 1]%Z].
Proof.
  assert (rect 2 [h2_R]) as Hrect by by repeat constructor.
  assert (0 < 1.008) as Hm by lra.
  split; [done|]. split; [done|]. split; [done|]. split; [done|].
  apply (com_distance_sum_one_element masses_R gset_order 1%Z 1.008 [h2_R]
           [0; 1]%Z 2%nat); [done|done|lia|done|done|done].
Defined.

Lemma accept_cutoff_monotone_witness :
  2 <= 3 ∧
  accept (mkCriteria desc_max_atom_pair_dist ∅ 2) [1; 1]%Z (Frame h2_R) ∅ =
    Ok (Item true, Item 1) ∧
  ∃ a2, accept (mkCriteria desc_max_atom_pair_dist ∅ 3) [1; 1]%Z (Frame h2_R) ∅ =
          Ok (a2, Item 1) ∧
        frame_at a2 0 = Some true.
Proof.
  assert (2 <= 3) as Hc by lra.
  split; [done|]. split; [apply accept_h2_R|].
  destruct (accept_cutoff_monotone desc_max_atom_pair_dist ∅ 2 3 [1; 1]%Z
              (Frame h2_R) ∅ (Item true) (Item 1) Hc accept_h2_R) as (a2 & Hacc & Hi).
  exists a2. split; [done|]. by apply Hi.
Defined.

Lemma get_center_of_mass_within_bounds_witness :
  rect 2 (promote (Frame h2_R)) ∧
  get_center_of_mass masses_R [1; 1]%Z (Frame h2_R) = Ok [Point 0 0 0.5] ∧
  (∀ p, p ∈ h2_R → 0 <= pz p <= 1) ∧
  0 <= pz (Point 0 0 0.5) <= 1.
Proof.
  assert (rect 2 (promote (Frame h2_R))) as Hrect by by repeat constructor.
  assert (∀ p, p ∈ h2_R → 0 <= pz p <= 1) as Hbox.
  { unfold h2_R. intros p. rewrite !elem_of_cons, elem_of_nil.
    intros [->|[->|[]]]; cbn; lra. }
  split; [done|]. split; [apply get_center_of_mass_h2_R|]. split; [done|].
  apply (get_center_of_mass_within_bounds masses_R [1; 1]%Z (Frame h2_R) 2%nat
           [Point 0 0 0.5] 0%nat h2_R (Point 0 0 0.5) pz 0 1);
    [apply masses_R_positive|done|apply get_center_of_mass_h2_R|done|done|auto|done].
Defined.

End FurtherRunsReal.

Section FurtherRunsBinary64.
Local Open Scope float_scope.

(** [str.split()] on a rotamer comment line. *)
Lemma py_split_rotamer_line :
  py_split "   -12.34567   0.12345  1 " = ["-12.34567"; "0.12345"; "1"]%string.
Proof. by vm_compute. Qed.

Lemma get_center_of_mass_framewise_witness :
  rect 2 [h2_float; h2_float] ∧
  get_center_of_mass masses_float [1; 1]%Z (Batch [h2_float; h2_float]) =
    Ok [Point 0 0 0.5; Point 0 0 0.5] ∧
  Forall2 (λ f c, get_center_of_mass masses_float [1; 1]%Z (Frame f) = Ok [c])
          [h2_float; h2_float] [Point 0 0 0.5; Point 0 0 0.5].
Proof.
  assert (rect 2 [h2_float; h2_float]) as Hrect by by repeat constructor.
  assert (get_center_of_mass masses_float [1; 1]%Z (Batch [h2_float; h2_float]) =
            Ok [Point 0 0 0.5; Point 0 0 0.5]) as Hcm by by vm_compute.
  split; [done|]. split; [done|].
  exact (proj2 (proj1 (get_center_of_mass_framewise masses_float [1; 1]%Z
                         [h2_float; h2_float] 2%nat
                         [Point 0 0 0.5; Point 0 0 0.5] Hrect) Hcm)).
Defined.

Lemma plain_single_point_Ok (zs : list Z) (Rs : list (frame float)) r e f :
  r ∈ Rs → ∃ a, plain_single_point zs r e f = Ok a.
Proof. intros _. by eexists. Qed.

Lemma write_ase_db_appends_witness :
  write_ase_db plain_single_point [] [1; 1]%Z [h2_float; h2_float]
    (Some [1]) None =
    ([([1; 1]%Z, h2_float, Some 1, None)], Raise IndexError) ∧
  ∃ rows, [([1; 1]%Z, h2_float, Some 1, None)] = [] ++ rows ∧
    (∀ i row, rows !! i = Some row →
       ase_row_of plain_single_point [1; 1]%Z [h2_float; h2_float]
         (Some [1]) None i = Ok row) ∧
    (length rows < 2)%nat ∧
    ase_row_of plain_single_point [1; 1]%Z [h2_float; h2_float]
      (Some [1]) None (length rows) = Raise IndexError.
Proof.
  assert (write_ase_db plain_single_point [] [1; 1]%Z [h2_float; h2_float]
            (Some [1]) None =
          ([([1; 1]%Z, h2_float, Some 1, None)], Raise IndexError)) as Hw
    by reflexivity.
  split; [done|].
  exact (write_ase_db_appends plain_single_point [] [1; 1]%Z
           [h2_float; h2_float] (Some [1]) None _ _ Hw).
Defined.

Lemma write_ase_db_short_energy_witness :
  (length [1] < length [h2_float; h2_float])%nat ∧
  ∃ rows, write_ase_db plain_single_point [] [1; 1]%Z [h2_float; h2_float]
            (Some [1]) None = ([] ++ rows, Raise IndexError) ∧
          length rows = length [1].
Proof.
  assert (length [1] < length [h2_float; h2_float])%nat as Hlen by (cbn; lia).
  split; [done|].
  apply (write_ase_db_short_energy plain_single_point [] [1; 1]%Z
           [h2_float; h2_float] [1] Hlen).
  intros r e. apply plain_single_point_Ok.
Defined.

Lemma write_ase_db_all_written_witness :
  (length [h2_float; h2_float] ≤ length [1; 2])%nat ∧
  ∃ rows, write_ase_db plain_single_point [] [1; 1]%Z [h2_float; h2_float]
            (Some [1; 2]) None = ([] ++ rows, Ok tt) ∧
    length rows = length [h2_float; h2_float] ∧
    ∀ i r, [h2_float; h2_float] !! i = Some r →
      ∃ a, rows !! i = Some a ∧
           plain_single_point [1; 1]%Z r (Some [1; 2] ≫= (.!! i))
             ((None : option (list (frame float))) ≫= (.!! i)) =
             Ok a.
Proof.
  assert (length [h2_float; h2_float] ≤ length [1; 2])%nat as Hlen by (cbn; lia).
  split; [done|].
  apply (write_ase_db_all_written plain_single_point [] [1; 1]%Z
           [h2_float; h2_float] (Some [1; 2]) None).
  - by intros l [= <-].
  - by intros l [=].
  - intros r e f. apply plain_single_point_Ok.
Defined.

End FurtherRunsBinary64.
